(** * Educational RSA for alphabetic messages: a shallow embedding

    The development embeds the RSA laboratory of the repository:

    - [RSA]: [laboratorios_criptografia/03_cifrados_asimetricos/RSA.py]
    - [TestRsa]: [03_cifrados_asimetricos/03_rsa/test_rsa.py]

    Python integers are [Z] ([Z.modulo] and [Z.div] are the floor
    operations of [%] and [//]); a Python [str] is the list of its code
    points; exceptions and unbounded [while] loops are explicit in the
    [result] type. [Py.int] and [Py.to_str] carry the limit of 4300
    digits that CPython's default configuration puts on the conversions
    between integers and decimal strings. *)

From Stdlib Require Import ZArith List Lia Bool Znumtheory.
From Stdlib Require Import Zmod.ZmodInv.
From Stdlib Require String Ascii.
Import String.StringSyntax.
Import ListNotations.
Delimit Scope string_scope with string.
Local Open Scope Z_scope.

(** ** Outcomes of a Python call *)

Inductive exn : Type :=
| ValueError
| ZeroDivisionError
| TypeError.

(** [OutOfFuel] is not a Python outcome: it marks a loop that was still
    running when the iteration bound of the model was reached. *)
Inductive result (A : Type) : Type :=
| Ok (a : A)
| Raise (e : exn)
| OutOfFuel.

Arguments Ok {A} a.
Arguments Raise {A} e.
Arguments OutOfFuel {A}.

Definition bind {A B : Type} (m : result A) (k : A -> result B) : result B :=
  match m with
  | Ok a => k a
  | Raise e => Raise e
  | OutOfFuel => OutOfFuel
  end.

Notation "x <- m ;; k" := (bind m (fun x => k))
  (at level 61, m at next level, right associativity).

(** ** Python built-ins used by the sources *)

Module Py.

(** A [str] is the sequence of its code points. *)
Definition str : Type := list Z.

Definition len (s : str) : Z := Z.of_nat (length s).

(** [s[i:j]] for [0 <= i <= j]. *)
Definition slice (s : str) (i j : nat) : str := firstn (j - i) (skipn i s).

(** [a % b]. *)
Definition mod_ (a b : Z) : result Z :=
  if b =? 0 then Raise ZeroDivisionError else Ok (a mod b).

Definition is_digit (c : Z) : bool := (48 <=? c) && (c <=? 57).

Definition digit_value (c : Z) : Z := c - 48.

(** The limit of CPython on the conversions between [int] and decimal
    strings ([sys.int_info.default_max_str_digits]): [int(s)] raises
    [ValueError] on more than 4300 digit characters, leading zeros
    counted, and [str(n)] on a number of more than 4300 digits. *)
Definition max_str_digits : Z := 4300.

(** [int(s)] on the strings the sources build, sequences of ASCII
    decimal digits: the empty string, a string with another character
    and a string above the limit raise [ValueError]. (Python also reads
    signs, surrounding blanks, underscores and non-ASCII digits; no digit
    string contains them.) *)
Definition int_digits (s : str) : Z :=
  fold_left (fun acc c => 10 * acc + digit_value c) s 0.

Definition int (s : str) : result Z :=
  match s with
  | [] => Raise ValueError
  | _ =>
      if max_str_digits <? Z.of_nat (length s) then Raise ValueError
      else if forallb is_digit s then Ok (int_digits s)
      else Raise ValueError
  end.

(** Decimal digits of a non-negative integer, most significant first. *)
Fixpoint digits_of (fuel : nat) (n : Z) (acc : str) : str :=
  match fuel with
  | O => acc
  | S fuel' =>
      if n <? 10 then (48 + n) :: acc
      else digits_of fuel' (n / 10) ((48 + n mod 10) :: acc)
  end.

(** The decimal string of [n], what [str(n)] returns when it returns:
    45 is the code point of the minus sign. A number below [2^k] has at
    most [k] decimal digits, so the bound is never reached. *)
Definition str_of_int (n : Z) : str :=
  if n <? 0 then 45 :: digits_of (S (Z.to_nat (Z.log2 (- n)))) (- n) []
  else digits_of (S (Z.to_nat (Z.log2 n))) n [].

(** [str(n)]: the limit counts the digits, not the sign. *)
Definition to_str (n : Z) : result str :=
  let s := str_of_int n in
  let digits := if n <? 0 then (length s - 1)%nat else length s in
  if max_str_digits <? Z.of_nat digits then Raise ValueError else Ok s.

Definition is_sign (c : Z) : bool := (c =? 43) || (c =? 45).

(** [s.zfill(width)]: zeros go after a leading sign. *)
Definition zfill (s : str) (width : nat) : str :=
  let pad := repeat 48 (width - length s) in
  match s with
  | c :: rest => if is_sign c then c :: pad ++ rest else pad ++ s
  | [] => pad
  end.

(** [f"{v:02d}"], for a number within the limit of [str]: the sources
    format the difference of two code points. *)
Definition format_02d (v : Z) : str :=
  let s := str_of_int v in
  let pad := repeat 48 (2 - length s) in
  match s with
  | c :: rest => if is_sign c then c :: pad ++ rest else pad ++ s
  | [] => pad
  end.

(** [ord(c)] takes a string of length one. *)
Definition ord (c : str) : result Z :=
  match c with
  | [x] => Ok x
  | _ => Raise TypeError
  end.

(** [chr(v)] as a one-character string, for a valid code point. *)
Definition chr (v : Z) : result str :=
  if (0 <=? v) && (v <? 1114112) then Ok [v] else Raise ValueError.

(** [a <= b] on strings: lexicographic on code points. *)
Fixpoint str_le (a b : str) : bool :=
  match a, b with
  | [], _ => true
  | _ :: _, [] => false
  | x :: a', y :: b' => if x <? y then true else if y <? x then false else str_le a' b'
  end.

(** [range(0, n, 2)]. *)
Definition range_step2 (n : nat) : list nat :=
  map (fun k => (2 * k)%nat) (seq 0 (Nat.div2 (n + 1))).

(** [a == b] on strings. *)
Fixpoint str_eqb (a b : str) : bool :=
  match a, b with
  | [], [] => true
  | x :: a', y :: b' => (x =? y) && str_eqb a' b'
  | _, _ => false
  end.

End Py.

(** ** [RSA.py] *)

Module RSA.

Definition block : Type := (Z * Z)%type.

Section TextMapping.

(** [str.isalpha] and [str.upper] on a one-character string, by code
    point: the Unicode tables behind them are not part of the repository. *)
Variable isalpha : Z -> bool.
Variable upper : Z -> Py.str.

(** The [for char in text] loop of [map_text_to_numbers]; [numeric_str]
    is the string built so far. After [char = char.upper()] the variable
    holds a string that may have more than one character. *)
Fixpoint map_text_to_numbers_loop (text : Py.str) (numeric_str : Py.str)
  : result Py.str :=
  match text with
  | [] => Ok numeric_str
  | char :: text' =>
      if negb (isalpha char) then map_text_to_numbers_loop text' numeric_str
      else
        let char := upper char in
        if Py.str_le [65] char && Py.str_le char [90] then
          o <- Py.ord char ;;
          let numeric_value := o - 65 in
          map_text_to_numbers_loop text'
            (numeric_str ++ Py.format_02d numeric_value)
        else map_text_to_numbers_loop text' numeric_str
  end.

Definition map_text_to_numbers (text : Py.str) : result Py.str :=
  map_text_to_numbers_loop text [].

End TextMapping.

(** The [for i in range(0, len(numeric_str), 2)] loop of
    [map_numbers_to_text]. *)
Fixpoint map_numbers_to_text_loop (idxs : list nat) (numeric_str text : Py.str)
  : result Py.str :=
  match idxs with
  | [] => Ok text
  | i :: idxs' =>
      if (i + 1 <? length numeric_str)%nat then
        let pair := Py.slice numeric_str i (i + 2) in
        numeric_value <- Py.int pair ;;
        if (0 <=? numeric_value) && (numeric_value <=? 25) then
          c <- Py.chr (65 + numeric_value) ;;
          map_numbers_to_text_loop idxs' numeric_str (text ++ c)
        else map_numbers_to_text_loop idxs' numeric_str text
      else map_numbers_to_text_loop idxs' numeric_str text
  end.

Definition map_numbers_to_text (numeric_str : Py.str) : result Py.str :=
  map_numbers_to_text_loop (Py.range_step2 (length numeric_str)) numeric_str [].

(** The inner [while i < len(numeric_str)] loop of [split_into_blocks]:
    the state is [(current_block, letters_count, i)], returned as the
    loop leaves it (by its condition or by [break]). *)
Fixpoint grow_block (fuel : nat) (numeric_str : Py.str) (modulus : Z)
    (current_block : Py.str) (letters_count : Z) (i : nat)
  : result (Py.str * Z * nat) :=
  if (i <? length numeric_str)%nat then
    match fuel with
    | O => OutOfFuel
    | S fuel' =>
        if (i + 1 <? length numeric_str)%nat then
          let next_pair := Py.slice numeric_str i (i + 2) in
          let test_block := current_block ++ next_pair in
          test_value <- Py.int test_block ;;
          if test_value <? modulus then
            grow_block fuel' numeric_str modulus test_block
              (letters_count + 1) (i + 2)
          else Ok (current_block, letters_count, i)
        else Ok (current_block, letters_count, i)
    end
  else Ok (current_block, letters_count, i).

(** The outer [while i < len(numeric_str)] loop; the inner loop advances
    [i] by two at each turn, so [length numeric_str] turns are enough for
    it. *)
Fixpoint split_loop (fuel : nat) (numeric_str : Py.str) (modulus : Z)
    (blocks : list block) (i : nat) : result (list block) :=
  if (i <? length numeric_str)%nat then
    match fuel with
    | O => OutOfFuel
    | S fuel' =>
        st <- grow_block (length numeric_str) numeric_str modulus [] 0 i ;;
        let '(current_block, letters_count, i') := st in
        match current_block with
        | [] => split_loop fuel' numeric_str modulus blocks i'
        | _ :: _ =>
            v <- Py.int current_block ;;
            split_loop fuel' numeric_str modulus
              (blocks ++ [(v, letters_count)]) i'
        end
    end
  else Ok blocks.

(** [fuel] bounds the turns of the outer loop. *)
Definition split_into_blocks (fuel : nat) (numeric_str : Py.str) (modulus : Z)
  : result (list block) :=
  split_loop fuel numeric_str modulus [] 0.

(** The [while exp > 0] loop of [modular_exponentiation_traced] with
    [verbose=False] (the verbose branches only print). [mod_] is not zero
    here: [base % mod] has been computed before the loop. *)
Fixpoint square_and_multiply (fuel : nat) (result_ base exp mod_ : Z)
  : result Z :=
  if exp >? 0 then
    match fuel with
    | O => OutOfFuel
    | S fuel' =>
        let result_ :=
          if negb (Z.land exp 1 =? 0) then (result_ * base) mod mod_
          else result_ in
        let exp := Z.shiftr exp 1 in
        let base := if exp >? 0 then (base * base) mod mod_ else base in
        square_and_multiply fuel' result_ base exp mod_
    end
  else Ok result_.

(** The exponent is halved at each turn: one turn per bit. *)
Definition modular_exponentiation_traced (base exp mod_ : Z) : result Z :=
  base <- Py.mod_ base mod_ ;;
  square_and_multiply (S (Z.to_nat (Z.log2 exp))) 1 base exp mod_.

Fixpoint encrypt_blocks (blocks : list block) (e m : Z) : result (list block) :=
  match blocks with
  | [] => Ok []
  | (M, num_letters) :: blocks' =>
      C <- modular_exponentiation_traced M e m ;;
      encrypted <- encrypt_blocks blocks' e m ;;
      Ok ((C, num_letters) :: encrypted)
  end.

(** The recursion [extended_gcd(b, a % b)]; [fuel] bounds its depth. *)
Fixpoint extended_gcd_rec (fuel : nat) (a b : Z) : result (Z * Z * Z) :=
  if b =? 0 then Ok (a, 1, 0)
  else
    match fuel with
    | O => OutOfFuel
    | S fuel' =>
        r <- extended_gcd_rec fuel' b (a mod b) ;;
        let '(gcd_val, x1, y1) := r in
        let d := y1 in
        let y := x1 - (a / b) * y1 in
        Ok (gcd_val, d, y)
    end.

(** [|a % b| < |b|]: the depth is at most [|b|]. *)
Definition extended_gcd (a b : Z) : result (Z * Z * Z) :=
  extended_gcd_rec (Z.abs_nat b) a b.

Definition modinv (e phi : Z) : result Z :=
  r <- extended_gcd e phi ;;
  let '(gcd_val, d, _) := r in
  if negb (gcd_val =? 1) then Raise ValueError
  else Py.mod_ d phi.

Fixpoint decrypt_blocks (encrypted_blocks : list block) (d m : Z)
  : result (list block) :=
  match encrypted_blocks with
  | [] => Ok []
  | (C, num_letters) :: blocks' =>
      M <- modular_exponentiation_traced C d m ;;
      decrypted <- decrypt_blocks blocks' d m ;;
      Ok ((M, num_letters) :: decrypted)
  end.

(** With [verbose] off. [str(M)] raises on a value above the limit, at
    the first such block. *)
Fixpoint reconstruct_numeric_string (decrypted_blocks : list block)
  : result Py.str :=
  match decrypted_blocks with
  | [] => Ok []
  | (M, num_letters) :: blocks' =>
      let expected_length := num_letters * 2 in
      M_str <- Py.to_str M ;;
      let block_str := Py.zfill M_str (Z.to_nat expected_length) in
      rest <- reconstruct_numeric_string blocks' ;;
      Ok (block_str ++ rest)
  end.

Section Primality.

(** [random.randrange(lo, hi)] as an injected source: [randrange k lo hi]
    is the value of the [k]-th draw of the run. Python raises
    [ValueError] on an empty range. *)
Variable randrange : nat -> Z -> Z -> Z.

Definition draw (k : nat) (lo hi : Z) : result Z :=
  if lo <? hi then Ok (randrange k lo hi) else Raise ValueError.

(** [while d % 2 == 0: r += 1; d //= 2]. *)
Fixpoint factor_twos (fuel : nat) (r d : Z) : result (Z * Z) :=
  if d mod 2 =? 0 then
    match fuel with
    | O => OutOfFuel
    | S fuel' => factor_twos fuel' (r + 1) (d / 2)
    end
  else Ok (r, d).

(** The [for _ in range(r - 1)] loop with its [else]: [true] when the
    loop was left by [break], [false] when it ran to its end. [turns] is
    the number of values of the range left. *)
Fixpoint squarings (turns : nat) (x n : Z) : bool :=
  match turns with
  | O => false
  | S turns' =>
      let x := x ^ 2 mod n in
      if x =? n - 1 then true else squarings turns' x n
  end.

(** The [for _ in range(k)] loop; [call] counts the draws made so far. *)
Fixpoint rounds (turns : nat) (call : nat) (n r d : Z) : result bool :=
  match turns with
  | O => Ok true
  | S turns' =>
      a <- draw call 2 (n - 1) ;;
      let x := a ^ d mod n in
      if (x =? 1) || (x =? n - 1) then rounds turns' (S call) n r d
      else if squarings (Z.to_nat (r - 1)) x n then rounds turns' (S call) n r d
      else Ok false
  end.

(** [d] is halved at each turn of the first loop: one turn per bit of
    [n - 1]. *)
Definition is_probable_prime (n k : Z) : result bool :=
  if n <? 2 then Ok false
  else if (n =? 2) || (n =? 3) then Ok true
  else if n mod 2 =? 0 then Ok false
  else
    rd <- factor_twos (S (Z.to_nat (Z.log2 (n - 1)))) 0 (n - 1) ;;
    let '(r, d) := rd in
    rounds (Z.to_nat k) 0 n r d.

End Primality.

(** [clean_text]: the letters of the text in upper case, and whether
    the text was changed. [isalpha] and [upper] are [str.isalpha] and
    [str.upper] on one character, as in [map_text_to_numbers]. *)
Definition clean_text (isalpha : Z -> bool) (upper : Z -> Py.str)
    (text : Py.str) : Py.str * bool :=
  let original := text in
  let cleaned := flat_map upper (filter isalpha text) in
  (cleaned, negb (Py.str_eqb original cleaned)).

(** The five messages of [validate_keys], with the values they print. *)
Inductive key_message : Type :=
| PNotPrime (p : Z)
| QNotPrime (q : Z)
| ProductMismatch (product m : Z)
| ExponentNotCoprime (e phi gcd_val : Z)
| ValidKeys.

(** [validate_keys] (its [verbose] branches only print). The two
    primality tests draw from the random source one after the other:
    [randrange_p] gives the draws of the first test and [randrange_q]
    those of the second. [math.gcd] is [Z.gcd]. *)
Definition validate_keys (randrange_p randrange_q : nat -> Z -> Z -> Z)
    (p q m e : Z) : result (bool * option Z * key_message) :=
  p_ok <- is_probable_prime randrange_p p 10 ;;
  if negb p_ok then Ok (false, None, PNotPrime p)
  else
    q_ok <- is_probable_prime randrange_q q 10 ;;
    if negb q_ok then Ok (false, None, QNotPrime q)
    else if negb (p * q =? m) then Ok (false, None, ProductMismatch (p * q) m)
    else
      let phi := (p - 1) * (q - 1) in
      let gcd_val := Z.gcd e phi in
      if negb (gcd_val =? 1) then
        Ok (false, Some phi, ExponentNotCoprime e phi gcd_val)
      else Ok (true, Some phi, ValidKeys).

End RSA.

(** ** [test_rsa.py] *)

Module TestRsa.

Definition block : Type := (Z * Z)%type.

(** The recursion [extended_gcd(b, a % b)]; [fuel] bounds its depth. *)
Fixpoint extended_gcd_rec (fuel : nat) (a b : Z) : result (Z * Z * Z) :=
  if b =? 0 then Ok (Z.abs a, (if a >=? 0 then 1 else -1), 0)
  else
    match fuel with
    | O => OutOfFuel
    | S fuel' =>
        r <- extended_gcd_rec fuel' b (a mod b) ;;
        let '(gcd_val, x1, y1) := r in
        let x := y1 in
        let y := x1 - (a / b) * y1 in
        Ok (gcd_val, x, y)
    end.

(** [|a % b| < |b|]: the depth is at most [|b|]. *)
Definition extended_gcd (a b : Z) : result (Z * Z * Z) :=
  extended_gcd_rec (Z.abs_nat b) a b.

Definition modular_inverse (a m : Z) : result Z :=
  r <- extended_gcd a m ;;
  let '(gcd_val, x, _) := r in
  if negb (gcd_val =? 1) then Raise ValueError
  else Py.mod_ x m.

(** The [while exp > 0] loop of [modular_exponentiation]. [mod_] is not
    zero here: [base % mod] has been computed before the loop. *)
Fixpoint square_and_multiply (fuel : nat) (result_ base exp mod_ : Z)
  : result Z :=
  if exp >? 0 then
    match fuel with
    | O => OutOfFuel
    | S fuel' =>
        let result_ :=
          if negb (Z.land exp 1 =? 0) then (result_ * base) mod mod_
          else result_ in
        let base := (base * base) mod mod_ in
        let exp := Z.shiftr exp 1 in
        square_and_multiply fuel' result_ base exp mod_
    end
  else Ok result_.

Definition modular_exponentiation (base exp mod_ : Z) : result Z :=
  base <- Py.mod_ base mod_ ;;
  square_and_multiply (S (Z.to_nat (Z.log2 exp))) 1 base exp mod_.

Section TextMapping.

(** [str.upper] on a one-character string, by code point; [text.upper()]
    maps it over the text. *)
Variable upper : Z -> Py.str.

Definition str_upper (text : Py.str) : Py.str := flat_map upper text.

(** The [for char in text] loop of [text_to_numbers]. *)
Fixpoint text_to_numbers_loop (text : Py.str) (numeric_str : Py.str)
  : result Py.str :=
  match text with
  | [] => Ok numeric_str
  | char :: text' =>
      if Py.str_le [65] [char] && Py.str_le [char] [90] then
        o <- Py.ord [char] ;;
        let value := o - 65 in
        text_to_numbers_loop text' (numeric_str ++ Py.format_02d value)
      else text_to_numbers_loop text' numeric_str
  end.

Definition text_to_numbers (text : Py.str) : result Py.str :=
  let text := str_upper text in
  text_to_numbers_loop text [].

End TextMapping.

(** [numbers_to_text] and [split_into_blocks] have the bodies of
    [map_numbers_to_text] and [split_into_blocks] of [RSA.py], statement
    for statement. *)
Definition numbers_to_text (numeric_str : Py.str) : result Py.str :=
  RSA.map_numbers_to_text_loop (Py.range_step2 (length numeric_str))
    numeric_str [].

Definition split_into_blocks (fuel : nat) (numeric_str : Py.str) (modulus : Z)
  : result (list block) :=
  RSA.split_loop fuel numeric_str modulus [] 0.

(** The [for block_value, num_letters in blocks] loop of
    [encrypt_message]. *)
Fixpoint encrypt_loop (blocks : list block) (e n : Z) : result (list block) :=
  match blocks with
  | [] => Ok []
  | (block_value, num_letters) :: blocks' =>
      cipher_value <- modular_exponentiation block_value e n ;;
      encrypted_blocks <- encrypt_loop blocks' e n ;;
      Ok ((cipher_value, num_letters) :: encrypted_blocks)
  end.

(** [fuel] bounds the turns of the outer loop of [split_into_blocks]. *)
Definition encrypt_message (upper : Z -> Py.str) (fuel : nat)
    (plaintext : Py.str) (e n : Z) : result (list block) :=
  numeric_str <- text_to_numbers upper plaintext ;;
  blocks <- split_into_blocks fuel numeric_str n ;;
  encrypt_loop blocks e n.

(** The [for cipher_value, num_letters in encrypted_blocks] loop of
    [decrypt_message]; [numeric_str] is the string built so far. *)
Fixpoint decrypt_loop (encrypted_blocks : list block) (d n : Z)
    (numeric_str : Py.str) : result Py.str :=
  match encrypted_blocks with
  | [] => Ok numeric_str
  | (cipher_value, num_letters) :: blocks' =>
      block_value <- modular_exponentiation cipher_value d n ;;
      let expected_length := num_letters * 2 in
      value_str <- Py.to_str block_value ;;
      let block_str := Py.zfill value_str (Z.to_nat expected_length) in
      decrypt_loop blocks' d n (numeric_str ++ block_str)
  end.

Definition decrypt_message (encrypted_blocks : list block) (d n : Z)
  : result Py.str :=
  numeric_str <- decrypt_loop encrypted_blocks d n [] ;;
  numbers_to_text numeric_str.

(** The [while b != 0] loop of [gcd]. *)
Fixpoint gcd_loop (fuel : nat) (a b : Z) : result Z :=
  if negb (b =? 0) then
    match fuel with
    | O => OutOfFuel
    | S fuel' => gcd_loop fuel' b (a mod b)
    end
  else Ok (Z.abs a).

(** [|a % b| < |b|]: the loop makes at most [|b|] turns. *)
Definition gcd (a b : Z) : result Z := gcd_loop (Z.abs_nat b) a b.

(** What a [print] of integers can change in the control flow: each
    number is converted with [str], which raises above the limit. The text
    written is not modelled. *)
Fixpoint print_ints (values : list Z) : result unit :=
  match values with
  | [] => Ok tt
  | v :: values' => s <- Py.to_str v ;; print_ints values'
  end.

(** [test_case]: [ValueError] from [modular_inverse] is caught and gives
    [False], any other exception goes on to the caller, as does a
    [ValueError] raised later. Of the prints, the conversions of the
    numbers are kept: the keys, the plain blocks (values and letter
    counts) and the cipher values. [fuel] bounds the outer loop of each
    call of [split_into_blocks]. *)
Definition test_case (upper : Z -> Py.str) (fuel : nat)
    (p q e : Z) (mensaje : Py.str) : result bool :=
  let n := p * q in
  let phi := (p - 1) * (q - 1) in
  match modular_inverse e phi with
  | Raise ValueError => Ok false
  | Raise other => Raise other
  | OutOfFuel => OutOfFuel
  | Ok d =>
      u <- print_ints [p; q; n; phi; e; d] ;;
      verification <- Py.mod_ (e * d) phi ;;
      u <- print_ints [verification] ;;
      if negb (verification =? 1) then Ok false
      else
        numeric <- text_to_numbers upper mensaje ;;
        blocks <- split_into_blocks fuel numeric n ;;
        u <- print_ints (flat_map (fun b => [fst b; snd b]) blocks) ;;
        encrypted <- encrypt_message upper fuel mensaje e n ;;
        u <- print_ints (map fst encrypted) ;;
        decrypted <- decrypt_message encrypted d n ;;
        Ok (Py.str_eqb mensaje decrypted)
  end.

End TestRsa.

(** ** Concrete inputs *)

(** A fragment of Python's Unicode tables, exact on ASCII and on U+00DF
    (the sharp s, a letter whose upper case is the two characters [SS]);
    the examples below use no other code point. *)
Module Tables.

Definition isalpha (c : Z) : bool :=
  ((65 <=? c) && (c <=? 90)) || ((97 <=? c) && (c <=? 122)) || (c =? 223).

Definition upper (c : Z) : Py.str :=
  if (97 <=? c) && (c <=? 122) then [c - 32]
  else if c =? 223 then [83; 83]
  else [c].

End Tables.

(** The code points of an ASCII literal. *)
Definition py (s : String.string) : Py.str :=
  map (fun a => Z.of_N (Ascii.N_of_ascii a)) (String.list_ascii_of_string s).

Arguments py s%_string.

(** ** Vocabulary of the specification *)

(** A digit string: ASCII decimal digits only. *)
Definition is_digit_string (s : Py.str) : bool := forallb Py.is_digit s.

(** Every two-digit group of the string, read from its start, is below
    the modulus. *)
Fixpoint groups_below (modulus : Z) (s : Py.str) : bool :=
  match s with
  | a :: b :: rest => (Py.int_digits [a; b] <? modulus) && groups_below modulus rest
  | _ => true
  end.

(** The invariant of a block emitted for the input [s]: its value is
    the numeric parse of [letter_count] whole groups of [s] (a slice that
    starts at an even offset), it is below the modulus, it stands for at
    least one letter, and its decimal string has at most
    [2 * letter_count] digits. *)
Definition block_ok (s : Py.str) (modulus : Z) (b : RSA.block) : Prop :=
  let '(value, letter_count) := b in
  (exists k : nat,
      (2 * k + 2 * Z.to_nat letter_count <= length s)%nat
      /\ value
         = Py.int_digits
             (Py.slice s (2 * k) (2 * k + 2 * Z.to_nat letter_count)))
  /\ 0 <= value < modulus
  /\ 1 <= letter_count
  /\ (length (Py.str_of_int value) <= 2 * Z.to_nat letter_count)%nat.

(** A text of upper-case letters A to Z only. *)
Definition is_upper_text (text : Py.str) : bool :=
  forallb (fun c => (65 <=? c) && (c <=? 90)) text.

(** The encoding of such a text: two digits per letter. *)
Definition encoding (text : Py.str) : Py.str :=
  flat_map (fun c => [48 + (c - 65) / 10; 48 + (c - 65) mod 10]) text.

(** What the turn [i] of the decoding loop adds to the text, on a digit
    string. *)
Definition group_letter (s : Py.str) (i : nat) : Py.str :=
  if (i + 1 <? length s)%nat then
    let v := Py.int_digits (Py.slice s i (i + 2)) in
    if (0 <=? v) && (v <=? 25) then [65 + v] else []
  else [].

(** Trial division: no number from 2 to [p - 1] divides [p]. *)
Definition is_prime (p : Z) : bool :=
  (1 <? p)
  && forallb (fun k => negb (p mod Z.of_nat k =? 0)) (seq 2 (Z.to_nat p - 2)).

(** What the encryption loop does to one block, for a positive exponent
    and a positive modulus. *)
Definition encrypt_block (e n : Z) (b : TestRsa.block) : TestRsa.block :=
  (fst b ^ e mod n, snd b).

(** The sign that relates [extended_gcd] of [RSA.py] to the one of
    [test_rsa.py]: 1 when [b > 0], or [b = 0] and [a >= 0]; -1 otherwise. *)
Definition euclid_sign (a b : Z) : Z :=
  if (0 <? b) || ((b =? 0) && (0 <=? a)) then 1 else -1.

(** The contract of [random.randrange]: a value of the range. *)
Definition randrange_in_range (randrange : nat -> Z -> Z -> Z) : Prop :=
  forall k lo hi, lo < hi -> lo <= randrange k lo hi < hi.

(** The characters A to Z of a text, in order. *)
Definition az_letters (text : Py.str) : Py.str :=
  filter (fun c => (65 <=? c) && (c <=? 90)) text.

(** An ASCII text: code points 0 to 127, where [Tables] is exact. *)
Definition is_ascii (text : Py.str) : bool :=
  forallb (fun c => (0 <=? c) && (c <? 128)) text.

(** The number of characters of the input that a list of blocks
    stands for: two per letter. *)
Definition consumed (blocks : list RSA.block) : nat :=
  fold_right (fun b acc => (2 * Z.to_nat (snd b) + acc)%nat) 0%nat blocks.

(** * Properties *)

(** ** The result monad *)

Lemma bind_Ok_inv {A B : Type} (m : result A) (k : A -> result B) (b : B) :
  bind m k = Ok b -> exists a, m = Ok a /\ k a = Ok b.
Proof.
  destruct m as [a| |]; simpl; intros H; try discriminate.
  exists a; split; [reflexivity | exact H].
Qed.

(** ** Extended Euclid and the modular inverse *)

Lemma bezout_step (a b g x1 y1 : Z) :
  b <> 0 ->
  b * x1 + (a mod b) * y1 = g ->
  a * y1 + b * (x1 - (a / b) * y1) = g.
Proof.
  intros Hb H. pose proof (Z.div_mod a b Hb) as Hdm. nia.
Qed.

Lemma abs_mod_lt (a b : Z) : b <> 0 -> Z.abs (a mod b) < Z.abs b.
Proof.
  intros Hb.
  destruct (Z.lt_total b 0) as [Hn | [H0 | Hp]]; [| contradiction |].
  - pose proof (Z.mod_neg_bound a b Hn). lia.
  - pose proof (Z.mod_pos_bound a b Hp). lia.
Qed.

Lemma gcd_mod_step (a b : Z) : b <> 0 -> Z.gcd b (a mod b) = Z.gcd a b.
Proof.
  intros Hb. rewrite (Z.gcd_comm b (a mod b)), Z.gcd_mod by exact Hb.
  apply Z.gcd_comm.
Qed.

(** [test_rsa.py]: the gcd is non-negative and the coefficients are
    Bezout coefficients, for all integers. *)
Lemma test_extended_gcd_rec_spec (fuel : nat) :
  forall a b, Z.abs b <= Z.of_nat fuel ->
    exists x y, TestRsa.extended_gcd_rec fuel a b = Ok (Z.gcd a b, x, y)
                /\ a * x + b * y = Z.gcd a b.
Proof.
  induction fuel as [| fuel IH]; intros a b Hfuel.
  - assert (b = 0) by lia. subst b. simpl.
    exists (if a >=? 0 then 1 else -1), 0.
    rewrite Z.gcd_0_r. split; [reflexivity |].
    destruct (Z.geb_spec a 0); lia.
  - simpl. destruct (Z.eqb_spec b 0) as [-> | Hb].
    + exists (if a >=? 0 then 1 else -1), 0.
      rewrite Z.gcd_0_r. split; [reflexivity |].
      destruct (Z.geb_spec a 0); lia.
    + pose proof (abs_mod_lt a b Hb) as Hlt.
      destruct (IH b (a mod b)) as (x1 & y1 & Hrec & Hbez); [lia |].
      rewrite Hrec. simpl.
      exists y1, (x1 - a / b * y1).
      rewrite <- (gcd_mod_step a b Hb).
      split; [reflexivity |].
      apply bezout_step; assumption.
Qed.

Lemma test_extended_gcd_spec (a b : Z) :
  exists x y, TestRsa.extended_gcd a b = Ok (Z.gcd a b, x, y)
              /\ a * x + b * y = Z.gcd a b.
Proof.
  unfold TestRsa.extended_gcd. apply test_extended_gcd_rec_spec.
  rewrite Zabs2Nat.id_abs. lia.
Qed.

(** [RSA.py]: the first component satisfies the Bezout identity and is
    the gcd up to sign; it is the gcd when [b] is positive, or zero with
    [a] non-negative. *)
Lemma rsa_extended_gcd_rec_spec (fuel : nat) :
  forall a b, Z.abs b <= Z.of_nat fuel ->
    exists g x y, RSA.extended_gcd_rec fuel a b = Ok (g, x, y)
                  /\ a * x + b * y = g
                  /\ Z.abs g = Z.gcd a b
                  /\ (0 < b \/ (b = 0 /\ 0 <= a) -> g = Z.gcd a b).
Proof.
  induction fuel as [| fuel IH]; intros a b Hfuel.
  - assert (b = 0) by lia. subst b. simpl.
    exists a, 1, 0. rewrite Z.gcd_0_r.
    repeat split; try lia.
  - simpl. destruct (Z.eqb_spec b 0) as [-> | Hb].
    + exists a, 1, 0. rewrite Z.gcd_0_r. repeat split; try lia.
    + pose proof (abs_mod_lt a b Hb) as Hlt.
      destruct (IH b (a mod b)) as (g & x1 & y1 & Hrec & Hbez & Habs & Hpos);
        [lia |].
      rewrite Hrec. simpl.
      exists g, y1, (x1 - a / b * y1).
      rewrite <- (gcd_mod_step a b Hb).
      repeat split; try assumption.
      * apply bezout_step; assumption.
      * intros [Hbpos | [H0 _]]; [| contradiction].
        apply Hpos. pose proof (Z.mod_pos_bound a b Hbpos). lia.
Qed.

Lemma rsa_extended_gcd_spec (a b : Z) :
  exists g x y, RSA.extended_gcd a b = Ok (g, x, y)
                /\ a * x + b * y = g
                /\ Z.abs g = Z.gcd a b
                /\ (0 < b \/ (b = 0 /\ 0 <= a) -> g = Z.gcd a b).
Proof.
  unfold RSA.extended_gcd. apply rsa_extended_gcd_rec_spec.
  rewrite Zabs2Nat.id_abs. lia.
Qed.

Lemma inverse_from_bezout (a m x y : Z) :
  2 <= m -> a * x + m * y = 1 -> 0 <= x mod m < m /\ (a * (x mod m)) mod m = 1.
Proof.
  intros Hm Hbez. split; [apply Z.mod_pos_bound; lia |].
  rewrite Z.mul_mod_idemp_r by lia.
  replace (a * x) with (1 + (- y) * m) by lia.
  rewrite Z.mod_add by lia. apply Z.mod_1_l. lia.
Qed.

Lemma test_modular_inverse_coprime (a m : Z) :
  2 <= m -> Z.gcd a m = 1 ->
  exists x, TestRsa.modular_inverse a m = Ok x /\ 0 <= x < m /\ (a * x) mod m = 1.
Proof.
  intros Hm Hg. unfold TestRsa.modular_inverse.
  destruct (test_extended_gcd_spec a m) as (x & y & Hegcd & Hbez).
  rewrite Hegcd, Hg in *. simpl. unfold Py.mod_.
  destruct (Z.eqb_spec m 0); [lia |].
  exists (x mod m). split; [reflexivity |].
  apply (inverse_from_bezout a m x y); assumption.
Qed.

Lemma test_modular_inverse_not_coprime (a m : Z) :
  Z.gcd a m <> 1 -> TestRsa.modular_inverse a m = Raise ValueError.
Proof.
  intros Hg. unfold TestRsa.modular_inverse.
  destruct (test_extended_gcd_spec a m) as (x & y & Hegcd & _).
  rewrite Hegcd. simpl.
  destruct (Z.eqb_spec (Z.gcd a m) 1); [contradiction | reflexivity].
Qed.

Lemma rsa_modinv_coprime (e phi : Z) :
  2 <= phi -> Z.gcd e phi = 1 ->
  exists d, RSA.modinv e phi = Ok d /\ 0 <= d < phi /\ (e * d) mod phi = 1.
Proof.
  intros Hm Hg. unfold RSA.modinv.
  destruct (rsa_extended_gcd_spec e phi) as (g & x & y & Hegcd & Hbez & _ & Hpos).
  assert (Hg1 : g = 1) by (rewrite <- Hg; apply Hpos; lia).
  rewrite Hg1 in Hegcd, Hbez.
  rewrite Hegcd. simpl. unfold Py.mod_.
  destruct (Z.eqb_spec phi 0); [lia |].
  exists (x mod phi). split; [reflexivity |].
  apply (inverse_from_bezout e phi x y); assumption.
Qed.

(** The first component of [extended_gcd] is the gcd up to sign, so it
    is not 1 when the gcd is not 1, whatever the sign of [phi]. *)
Lemma rsa_modinv_not_coprime (e phi : Z) :
  Z.gcd e phi <> 1 -> RSA.modinv e phi = Raise ValueError.
Proof.
  intros Hg. unfold RSA.modinv.
  destruct (rsa_extended_gcd_spec e phi) as (g & x & y & Hegcd & _ & Habs & _).
  rewrite Hegcd. cbn [bind].
  destruct (Z.eqb_spec g 1) as [Hg1 | Hg1]; [| reflexivity].
  exfalso. apply Hg. rewrite <- Habs, Hg1. reflexivity.
Qed.

(** ** Modular exponentiation *)

Lemma land_1_mod_2 (exp : Z) : Z.land exp 1 = exp mod 2.
Proof. apply (Z.land_ones exp 1). lia. Qed.

Lemma shiftr_1_div_2 (exp : Z) : Z.shiftr exp 1 = exp / 2.
Proof. rewrite Z.shiftr_div_pow2 by lia. reflexivity. Qed.

Lemma rsa_square_and_multiply_done (fuel : nat) (r base exp m : Z) :
  exp <= 0 -> RSA.square_and_multiply fuel r base exp m = Ok r.
Proof.
  intros H. destruct fuel; simpl; destruct (Z.gtb_spec exp 0); try lia; reflexivity.
Qed.

Lemma test_square_and_multiply_done (fuel : nat) (r base exp m : Z) :
  exp <= 0 -> TestRsa.square_and_multiply fuel r base exp m = Ok r.
Proof.
  intros H. destruct fuel; simpl; destruct (Z.gtb_spec exp 0); try lia; reflexivity.
Qed.

(** One turn of the loop: the product [result * base ^ exp] is kept
    modulo [m] when the low bit moves into [result] and [base] is
    squared. *)
Lemma square_and_multiply_step (r base exp m : Z) :
  0 < m -> 0 < exp ->
  ((if negb (exp mod 2 =? 0) then (r * base) mod m else r)
   * ((base * base) mod m) ^ (exp / 2)) mod m
  = (r * base ^ exp) mod m.
Proof.
  intros Hm Hexp.
  pose proof (Z.div_mod exp 2 ltac:(lia)) as Hdm.
  pose proof (Z.mod_pos_bound exp 2 ltac:(lia)) as Hbit.
  assert (Hhalf : 0 <= exp / 2) by (apply Z.div_pos; lia).
  rewrite <- Z.mul_mod_idemp_r, Z.mod_pow_l, Z.mul_mod_idemp_r by lia.
  replace ((base * base) ^ (exp / 2)) with (base ^ (2 * (exp / 2)))
    by (rewrite Z.pow_mul_r, Z.pow_2_r by lia; reflexivity).
  destruct (Z.eqb_spec (exp mod 2) 0) as [Hz | Hnz]; cbn [negb].
  - replace (2 * (exp / 2)) with exp by lia. reflexivity.
  - rewrite Z.mul_mod_idemp_l by lia.
    rewrite <- Z.mul_assoc, <- Z.pow_succ_r by lia.
    replace (Z.succ (2 * (exp / 2))) with exp by lia. reflexivity.
Qed.

Lemma rsa_square_and_multiply_spec (fuel : nat) :
  forall r base exp m,
    0 < m -> 0 < exp < 2 ^ Z.of_nat fuel ->
    RSA.square_and_multiply fuel r base exp m = Ok ((r * base ^ exp) mod m).
Proof.
  induction fuel as [| fuel IH]; intros r base exp m Hm Hexp.
  - simpl in Hexp. lia.
  - rewrite Nat2Z.inj_succ, Z.pow_succ_r in Hexp by lia.
    simpl. destruct (Z.gtb_spec exp 0); [| lia].
    rewrite land_1_mod_2, shiftr_1_div_2.
    pose proof (Z.div_mod exp 2 ltac:(lia)) as Hdm.
    pose proof (Z.mod_pos_bound exp 2 ltac:(lia)) as Hbit.
    destruct (Z.gtb_spec (exp / 2) 0) as [Hmore | Hlast].
    + rewrite IH by lia. f_equal. apply square_and_multiply_step; lia.
    + assert (Hone : exp = 1) by lia. subst exp.
      rewrite rsa_square_and_multiply_done by (simpl; lia).
      rewrite Z.pow_1_r. reflexivity.
Qed.

Lemma test_square_and_multiply_spec (fuel : nat) :
  forall r base exp m,
    0 < m -> 0 < exp < 2 ^ Z.of_nat fuel ->
    TestRsa.square_and_multiply fuel r base exp m = Ok ((r * base ^ exp) mod m).
Proof.
  induction fuel as [| fuel IH]; intros r base exp m Hm Hexp.
  - simpl in Hexp. lia.
  - rewrite Nat2Z.inj_succ, Z.pow_succ_r in Hexp by lia.
    simpl. destruct (Z.gtb_spec exp 0); [| lia].
    rewrite land_1_mod_2, shiftr_1_div_2.
    pose proof (Z.div_mod exp 2 ltac:(lia)) as Hdm.
    pose proof (Z.mod_pos_bound exp 2 ltac:(lia)) as Hbit.
    destruct (Z.ltb_spec 0 (exp / 2)) as [Hmore | Hlast].
    + rewrite IH by lia. f_equal. apply square_and_multiply_step; lia.
    + assert (Hone : exp = 1) by lia. subst exp.
      rewrite test_square_and_multiply_done by (simpl; lia).
      rewrite Z.pow_1_r. reflexivity.
Qed.

Lemma bits_bound (exp : Z) :
  0 < exp -> exp < 2 ^ Z.of_nat (S (Z.to_nat (Z.log2 exp))).
Proof.
  intros H. pose proof (Z.log2_spec exp H) as [_ Hlt].
  pose proof (Z.log2_nonneg exp).
  rewrite Nat2Z.inj_succ, Z2Nat.id by lia. exact Hlt.
Qed.

Lemma rsa_mod_pow_pos (base exp m : Z) :
  0 < m -> 0 < exp ->
  RSA.modular_exponentiation_traced base exp m = Ok (base ^ exp mod m).
Proof.
  intros Hm Hexp. unfold RSA.modular_exponentiation_traced, Py.mod_.
  destruct (Z.eqb_spec m 0); [lia |]. cbn [bind].
  rewrite rsa_square_and_multiply_spec by (auto using bits_bound; lia).
  rewrite Z.mul_1_l, Z.mod_pow_l. reflexivity.
Qed.

Lemma test_mod_pow_pos (base exp m : Z) :
  0 < m -> 0 < exp ->
  TestRsa.modular_exponentiation base exp m = Ok (base ^ exp mod m).
Proof.
  intros Hm Hexp. unfold TestRsa.modular_exponentiation, Py.mod_.
  destruct (Z.eqb_spec m 0); [lia |]. cbn [bind].
  rewrite test_square_and_multiply_spec by (auto using bits_bound; lia).
  rewrite Z.mul_1_l, Z.mod_pow_l. reflexivity.
Qed.

Lemma rsa_mod_pow_nonpos (base exp m : Z) :
  m <> 0 -> exp <= 0 -> RSA.modular_exponentiation_traced base exp m = Ok 1.
Proof.
  intros Hm Hexp. unfold RSA.modular_exponentiation_traced, Py.mod_.
  destruct (Z.eqb_spec m 0); [contradiction |]. cbn [bind].
  apply rsa_square_and_multiply_done. exact Hexp.
Qed.

Lemma test_mod_pow_nonpos (base exp m : Z) :
  m <> 0 -> exp <= 0 -> TestRsa.modular_exponentiation base exp m = Ok 1.
Proof.
  intros Hm Hexp. unfold TestRsa.modular_exponentiation, Py.mod_.
  destruct (Z.eqb_spec m 0); [contradiction |]. cbn [bind].
  apply test_square_and_multiply_done. exact Hexp.
Qed.

(** C5, as the code has it. For every base [b >= 0], exponent [e >= 0]
    and modulus [m >= 1], [mod_pow(b, e, m)] is [b^e mod m] except at
    [e = 0], [m = 1]; and [mod_pow(b, 0, m)] is 1 for every base and
    every [m >= 1] (at [m = 1] too, where [b^0 mod 1] is 0). Both
    implementations agree. *)
Theorem mod_pow_value (b e m : Z) :
  0 <= b -> 0 <= e -> 1 <= m ->
  (~ (e = 0 /\ m = 1) ->
     RSA.modular_exponentiation_traced b e m = Ok (b ^ e mod m)
     /\ TestRsa.modular_exponentiation b e m = Ok (b ^ e mod m))
  /\ (e = 0 ->
     RSA.modular_exponentiation_traced b e m = Ok 1
     /\ TestRsa.modular_exponentiation b e m = Ok 1).
Proof.
  intros _ He Hm. split.
  - intros Hcorner. destruct (Z.eq_dec e 0) as [-> | Hne].
    + assert (Hm2 : 1 < m) by lia.
      rewrite Z.pow_0_r, Z.mod_1_l by exact Hm2.
      split; [apply rsa_mod_pow_nonpos | apply test_mod_pow_nonpos]; lia.
    + split; [apply rsa_mod_pow_pos | apply test_mod_pow_pos]; lia.
  - intros ->.
    split; [apply rsa_mod_pow_nonpos | apply test_mod_pow_nonpos]; lia.
Qed.

Lemma mod_pow_value_witness :
  (~ (17 = 0 /\ 3233 = 1) ->
     RSA.modular_exponentiation_traced 65 17 3233 = Ok (65 ^ 17 mod 3233)
     /\ TestRsa.modular_exponentiation 65 17 3233 = Ok (65 ^ 17 mod 3233))
  /\ (17 = 0 ->
     RSA.modular_exponentiation_traced 65 17 3233 = Ok 1
     /\ TestRsa.modular_exponentiation 65 17 3233 = Ok 1).
Proof. apply (mod_pow_value 65 17 3233); lia. Defined.

(** C5 as stated fails at [b = 0], [e = 0], [m = 1]: the loop is not
    entered and the initial [result = 1] is returned, while
    [0^0 mod 1 = 0]. *)
Lemma mod_pow_zero_exponent_modulus_one :
  RSA.modular_exponentiation_traced 0 0 1 = Ok 1
  /\ TestRsa.modular_exponentiation 0 0 1 = Ok 1
  /\ 0 ^ 0 mod 1 = 0
  /\ RSA.modular_exponentiation_traced 0 0 1 <> Ok (0 ^ 0 mod 1).
Proof. repeat split; try reflexivity. discriminate. Qed.

(** C7, as the code has it. For every base, every modulus [m >= 1] and
    every negative exponent, [mod_pow] returns 1: the loop condition
    [exp > 0] fails at once and no error is raised. *)
Theorem mod_pow_negative_exponent (base e m : Z) :
  1 <= m -> e < 0 ->
  RSA.modular_exponentiation_traced base e m = Ok 1
  /\ TestRsa.modular_exponentiation base e m = Ok 1.
Proof.
  intros Hm He.
  split; [apply rsa_mod_pow_nonpos | apply test_mod_pow_nonpos]; lia.
Qed.

Lemma mod_pow_negative_exponent_witness :
  RSA.modular_exponentiation_traced 2 (-1) 5 = Ok 1
  /\ TestRsa.modular_exponentiation 2 (-1) 5 = Ok 1.
Proof. apply (mod_pow_negative_exponent 2 (-1) 5); lia. Defined.

(** C7 as stated fails at [base = 2], [e = -1], [m = 5]: a value comes
    back, not an error. *)
Lemma mod_pow_negative_exponent_returns :
  1 <= 5 /\ -1 < 0
  /\ RSA.modular_exponentiation_traced 2 (-1) 5 = Ok 1
  /\ RSA.modular_exponentiation_traced 2 (-1) 5 <> Raise ValueError
  /\ TestRsa.modular_exponentiation 2 (-1) 5 = Ok 1
  /\ TestRsa.modular_exponentiation 2 (-1) 5 <> Raise ValueError.
Proof. repeat split; try reflexivity; try lia; discriminate. Qed.

(** C6. For every [a] and every [m >= 2] with [gcd(a, m) = 1],
    [modular_inverse(a, m)] returns an [x] in [[0, m)] with
    [(a * x) mod m = 1]; and for every [a] and every [m], of any sign,
    when [gcd(a, m) <> 1] it raises [ValueError] and returns nothing.
    [modinv] of [RSA.py] does the same. *)
Theorem modular_inverse_spec (a m : Z) :
  (2 <= m -> Z.gcd a m = 1 ->
     (exists x, TestRsa.modular_inverse a m = Ok x
                /\ 0 <= x < m /\ (a * x) mod m = 1)
     /\ (exists x, RSA.modinv a m = Ok x
                   /\ 0 <= x < m /\ (a * x) mod m = 1))
  /\ (Z.gcd a m <> 1 ->
     TestRsa.modular_inverse a m = Raise ValueError
     /\ RSA.modinv a m = Raise ValueError).
Proof.
  split.
  - intros Hm Hg.
    split; [apply test_modular_inverse_coprime | apply rsa_modinv_coprime];
      assumption.
  - intros Hg.
    split; [apply test_modular_inverse_not_coprime | apply rsa_modinv_not_coprime];
      assumption.
Qed.

Lemma modular_inverse_spec_witness :
  ((exists x, TestRsa.modular_inverse 17 3120 = Ok x
              /\ 0 <= x < 3120 /\ (17 * x) mod 3120 = 1)
   /\ (exists x, RSA.modinv 17 3120 = Ok x
                 /\ 0 <= x < 3120 /\ (17 * x) mod 3120 = 1))
  /\ (TestRsa.modular_inverse 2 26 = Raise ValueError
      /\ RSA.modinv 2 26 = Raise ValueError)
  /\ (TestRsa.modular_inverse 4 (-6) = Raise ValueError
      /\ RSA.modinv 4 (-6) = Raise ValueError).
Proof.
  split; [| split].
  - apply (proj1 (modular_inverse_spec 17 3120)); [lia | reflexivity].
  - apply (proj2 (modular_inverse_spec 2 26)). discriminate.
  - apply (proj2 (modular_inverse_spec 4 (-6))). discriminate.
Defined.

(** C6 as stated fails at [a = 5], [m = 1]: [gcd(5, 1) = 1] and the
    call returns 0, yet [(5 * 0) mod 1] is 0, not 1. Below 1 it fails
    too: at [a = 1], [m = 0] the last [%] raises [ZeroDivisionError], and
    at [a = 3], [m = -2], with [gcd(3, -2) = 1], [test_rsa.py] returns
    -1, outside [[0, m)], while [RSA.py] raises [ValueError]. *)
Lemma modular_inverse_modulus_one :
  (Z.gcd 5 1 = 1
   /\ TestRsa.modular_inverse 5 1 = Ok 0
   /\ RSA.modinv 5 1 = Ok 0
   /\ (5 * 0) mod 1 <> 1)
  /\ (Z.gcd 1 0 = 1
      /\ TestRsa.modular_inverse 1 0 = Raise ZeroDivisionError
      /\ RSA.modinv 1 0 = Raise ZeroDivisionError)
  /\ (Z.gcd 3 (-2) = 1
      /\ TestRsa.modular_inverse 3 (-2) = Ok (-1)
      /\ RSA.modinv 3 (-2) = Raise ValueError).
Proof. repeat split; try reflexivity. discriminate. Qed.

(** [extended_gcd] of [test_rsa.py] does what C8 says: for all integers
    the first component is [gcd(a, b)], non-negative, with Bezout
    coefficients, and at [b = 0] the result is [(|a|, s, 0)] with [s = 1]
    for [a >= 0] and [s = -1] otherwise. *)
Lemma test_extended_gcd_claim (a b : Z) :
  (exists x y, TestRsa.extended_gcd a b = Ok (Z.gcd a b, x, y)
               /\ 0 <= Z.gcd a b /\ a * x + b * y = Z.gcd a b)
  /\ TestRsa.extended_gcd a 0 = Ok (Z.abs a, (if a >=? 0 then 1 else -1), 0).
Proof.
  split; [| reflexivity].
  destruct (test_extended_gcd_spec a b) as (x & y & H1 & H2).
  exists x, y. repeat split; try assumption. apply Z.gcd_nonneg.
Qed.

(** C8 at [a = -3], [b = 0] and at [a = 3], [b = -2]. [extended_gcd] of
    [RSA.py] returns [a] itself in the base case: its first component is
    negative where [test_rsa.py] returns the gcd. *)
Theorem rsa_extended_gcd_negative :
  RSA.extended_gcd (-3) 0 = Ok (-3, 1, 0)
  /\ TestRsa.extended_gcd (-3) 0 = Ok (3, -1, 0)
  /\ Z.gcd (-3) 0 = 3
  /\ RSA.extended_gcd 3 (-2) = Ok (-1, 1, 2)
  /\ TestRsa.extended_gcd 3 (-2) = Ok (1, -1, -2)
  /\ Z.gcd 3 (-2) = 1.
Proof. repeat split; reflexivity. Qed.

(** ** The primality test with no round *)

Lemma factor_twos_terminates (fuel : nat) :
  forall r d, 0 < d < 2 ^ Z.of_nat fuel ->
    exists r' d', RSA.factor_twos fuel r d = Ok (r', d').
Proof.
  induction fuel as [| fuel IH]; intros r d Hd.
  - simpl in Hd. lia.
  - rewrite Nat2Z.inj_succ, Z.pow_succ_r in Hd by lia.
    simpl. destruct (Z.eqb_spec (d mod 2) 0) as [Heven | Hodd].
    + apply IH.
      pose proof (Z.div_mod d 2 ltac:(lia)). lia.
    + exists r, d. reflexivity.
Qed.

(** C10. For every odd integer [n >= 5], [is_probable_prime(n, 0)]
    returns [True], whatever the random source: with zero rounds no base
    is drawn. *)
Theorem is_probable_prime_zero_rounds (randrange : nat -> Z -> Z -> Z) (n : Z) :
  5 <= n -> Z.odd n = true ->
  RSA.is_probable_prime randrange n 0 = Ok true.
Proof.
  intros Hn Hodd. unfold RSA.is_probable_prime.
  destruct (Z.ltb_spec n 2); [lia |].
  destruct (Z.eqb_spec n 2); [lia |].
  destruct (Z.eqb_spec n 3); [lia |]. cbn [orb].
  rewrite Zmod_odd, Hodd. cbn [Z.eqb].
  destruct (factor_twos_terminates (S (Z.to_nat (Z.log2 (n - 1)))) 0 (n - 1))
    as (r & d & Hrd).
  { split; [lia | apply bits_bound; lia]. }
  rewrite Hrd. reflexivity.
Qed.

Lemma is_probable_prime_zero_rounds_witness :
  RSA.is_probable_prime (fun _ lo _ => lo) 9 0 = Ok true
  /\ RSA.is_probable_prime (fun _ lo _ => lo) 15 0 = Ok true.
Proof.
  split.
  - apply (is_probable_prime_zero_rounds (fun _ lo _ => lo) 9); [lia | reflexivity].
  - apply (is_probable_prime_zero_rounds (fun _ lo _ => lo) 15); [lia | reflexivity].
Defined.

(** ** Decimal digits: [int], [str] and [zfill] *)

Lemma int_digits_fold (s : Py.str) :
  forall acc,
    fold_left (fun acc c => 10 * acc + Py.digit_value c) s acc
    = acc * 10 ^ Z.of_nat (length s) + Py.int_digits s.
Proof.
  unfold Py.int_digits.
  induction s as [| c s IH]; intros acc.
  - simpl. lia.
  - cbn [fold_left length]. rewrite IH, (IH (10 * 0 + Py.digit_value c)).
    rewrite Nat2Z.inj_succ, Z.pow_succ_r by lia. lia.
Qed.

Lemma int_digits_app (a b : Py.str) :
  Py.int_digits (a ++ b)
  = Py.int_digits a * 10 ^ Z.of_nat (length b) + Py.int_digits b.
Proof.
  unfold Py.int_digits at 1. rewrite fold_left_app.
  fold (Py.int_digits a). apply int_digits_fold.
Qed.

Lemma int_digits_cons (c : Z) (s : Py.str) :
  Py.int_digits (c :: s)
  = Py.digit_value c * 10 ^ Z.of_nat (length s) + Py.int_digits s.
Proof.
  change (c :: s) with ([c] ++ s). rewrite int_digits_app.
  unfold Py.int_digits at 1. simpl. lia.
Qed.

Lemma is_digit_range (c : Z) :
  Py.is_digit c = true <-> 0 <= Py.digit_value c <= 9.
Proof.
  unfold Py.is_digit, Py.digit_value.
  rewrite andb_true_iff, !Z.leb_le. lia.
Qed.

Lemma is_digit_string_cons (c : Z) (s : Py.str) :
  is_digit_string (c :: s) = true
  <-> Py.is_digit c = true /\ is_digit_string s = true.
Proof. unfold is_digit_string. simpl. apply andb_true_iff. Qed.

Lemma is_digit_string_app (a b : Py.str) :
  is_digit_string (a ++ b) = true
  <-> is_digit_string a = true /\ is_digit_string b = true.
Proof.
  unfold is_digit_string. rewrite forallb_app. apply andb_true_iff.
Qed.

Lemma int_digits_bound (s : Py.str) :
  is_digit_string s = true ->
  0 <= Py.int_digits s < 10 ^ Z.of_nat (length s).
Proof.
  induction s as [| c s IH]; intros Hs.
  - unfold Py.int_digits. simpl. lia.
  - apply is_digit_string_cons in Hs as [Hc Hs].
    apply is_digit_range in Hc. specialize (IH Hs).
    rewrite int_digits_cons. cbn [length].
    rewrite Nat2Z.inj_succ, Z.pow_succ_r by lia. nia.
Qed.

(** Two digit strings of one length with one value are equal. *)
Lemma int_digits_inj (a : Py.str) :
  forall b, length a = length b ->
    is_digit_string a = true -> is_digit_string b = true ->
    Py.int_digits a = Py.int_digits b -> a = b.
Proof.
  induction a as [| x a IH]; intros [| y b] Hlen Ha Hb Hval;
    try discriminate; [reflexivity |].
  apply is_digit_string_cons in Ha as [Hx Ha].
  apply is_digit_string_cons in Hb as [Hy Hb].
  apply is_digit_range in Hx, Hy.
  injection Hlen as Hlen.
  rewrite !int_digits_cons, <- Hlen in Hval.
  pose proof (int_digits_bound a Ha) as Hba.
  pose proof (int_digits_bound b Hb) as Hbb. rewrite <- Hlen in Hbb.
  assert (Hd : Py.digit_value x = Py.digit_value y) by nia.
  assert (Hr : Py.int_digits a = Py.int_digits b) by nia.
  f_equal.
  - unfold Py.digit_value in Hd. lia.
  - apply IH; assumption.
Qed.

Lemma int_digits_zeros (k : nat) (s : Py.str) :
  Py.int_digits (repeat 48 k ++ s) = Py.int_digits s.
Proof.
  induction k as [| k IH]; [reflexivity |].
  cbn [repeat app]. rewrite int_digits_cons, IH.
  unfold Py.digit_value. lia.
Qed.

Lemma is_digit_string_zeros (k : nat) : is_digit_string (repeat 48 k) = true.
Proof. induction k as [| k IH]; [reflexivity | exact IH]. Qed.

Lemma is_digit_string_single (d : Z) :
  0 <= d <= 9 -> is_digit_string [48 + d] = true.
Proof.
  intros Hd. unfold is_digit_string, Py.is_digit. cbn [forallb].
  rewrite andb_true_r, andb_true_iff, !Z.leb_le. lia.
Qed.

Lemma int_digits_single (d : Z) : Py.int_digits [48 + d] = d.
Proof. unfold Py.int_digits, Py.digit_value. cbn [fold_left]. lia. Qed.

(** The digits of a non-negative number: a non-empty digit string with
    that value, no longer than any width the number fits in. *)
Lemma digits_of_spec (fuel : nat) :
  forall n acc,
    (1 <= fuel)%nat -> 0 <= n < 10 ^ Z.of_nat fuel ->
    exists ds, Py.digits_of fuel n acc = ds ++ acc
               /\ ds <> []
               /\ is_digit_string ds = true
               /\ Py.int_digits ds = n
               /\ forall k, (1 <= k)%nat -> n < 10 ^ Z.of_nat k ->
                            (length ds <= k)%nat.
Proof.
  induction fuel as [| fuel IH]; intros n acc Hfuel Hn; [lia |].
  cbn [Py.digits_of]. destruct (Z.ltb_spec n 10) as [Hsmall | Hbig].
  - exists [48 + n]. repeat split.
    + discriminate.
    + apply is_digit_string_single. lia.
    + apply int_digits_single.
    + intros k Hk _. simpl. lia.
  - rewrite Nat2Z.inj_succ, Z.pow_succ_r in Hn by lia.
    pose proof (Z.div_mod n 10 ltac:(lia)) as Hdm.
    pose proof (Z.mod_pos_bound n 10 ltac:(lia)) as Hmod.
    destruct fuel as [| fuel]; [simpl in Hn; lia |].
    destruct (IH (n / 10) ((48 + n mod 10) :: acc)) as (ds & Heq & Hne & Hds & Hval & Hlen);
      [lia | lia |].
    exists (ds ++ [48 + n mod 10]). repeat split.
    + rewrite Heq, <- app_assoc. reflexivity.
    + destruct ds; discriminate.
    + apply is_digit_string_app. split; [exact Hds |].
      apply is_digit_string_single. lia.
    + rewrite int_digits_app, Hval, int_digits_single.
      cbn [length]. change (10 ^ Z.of_nat 1) with 10. lia.
    + intros k Hk Hnk. rewrite length_app. simpl.
      destruct k as [| k]; [lia |].
      rewrite Nat2Z.inj_succ, Z.pow_succ_r in Hnk by lia.
      destruct k as [| k]; [simpl in Hnk; lia |].
      assert (length ds <= S k)%nat by (apply Hlen; lia). lia.
Qed.

Lemma str_of_int_spec (n : Z) :
  0 <= n ->
  exists ds, Py.str_of_int n = ds
             /\ ds <> []
             /\ is_digit_string ds = true
             /\ Py.int_digits ds = n
             /\ forall k, (1 <= k)%nat -> n < 10 ^ Z.of_nat k ->
                          (length ds <= k)%nat.
Proof.
  intros Hn. unfold Py.str_of_int.
  destruct (Z.ltb_spec n 0); [lia |].
  destruct (digits_of_spec (S (Z.to_nat (Z.log2 n))) n []) as (ds & Heq & Hrest).
  - lia.
  - split; [lia |].
    destruct (Z.eq_dec n 0) as [-> | Hnz]; [simpl; lia |].
    apply Z.lt_le_trans with (2 ^ Z.of_nat (S (Z.to_nat (Z.log2 n)))).
    + apply bits_bound. lia.
    + apply Z.pow_le_mono_l. lia.
  - exists ds. rewrite Heq, app_nil_r. split; [reflexivity | exact Hrest].
Qed.

Lemma zfill_digits (s : Py.str) (width : nat) :
  s <> [] -> is_digit_string s = true ->
  Py.zfill s width = repeat 48 (width - length s) ++ s.
Proof.
  intros Hne Hs. destruct s as [| c s]; [contradiction |].
  apply is_digit_string_cons in Hs as [Hc _].
  unfold Py.zfill.
  replace (Py.is_sign c) with false; [reflexivity |].
  unfold Py.is_digit in Hc. apply andb_true_iff in Hc as [H1 H2].
  apply Z.leb_le in H1, H2. unfold Py.is_sign.
  symmetry. apply orb_false_iff. split; apply Z.eqb_neq; lia.
Qed.

(** Zero-padding the decimal string of the value of a digit string to
    the length of that string gives the string back. *)
Lemma zfill_str_int (s : Py.str) :
  s <> [] -> is_digit_string s = true ->
  Py.zfill (Py.str_of_int (Py.int_digits s)) (length s) = s.
Proof.
  intros Hne Hs.
  pose proof (int_digits_bound s Hs) as Hb.
  destruct (str_of_int_spec (Py.int_digits s)) as (ds & -> & Hdne & Hds & Hval & Hlen);
    [lia |].
  assert (Hk : (length ds <= length s)%nat).
  { apply Hlen; [| lia]. destruct s; [contradiction | simpl; lia]. }
  rewrite zfill_digits by assumption.
  apply int_digits_inj.
  - rewrite length_app, repeat_length. lia.
  - apply is_digit_string_app. split; [apply is_digit_string_zeros | exact Hds].
  - exact Hs.
  - rewrite int_digits_zeros. exact Hval.
Qed.

(** ** Slices *)

Lemma firstn_app_skipn {A : Type} (a b : nat) :
  forall t : list A, firstn a t ++ firstn b (skipn a t) = firstn (a + b) t.
Proof.
  induction a as [| a IH]; intros t; [reflexivity |].
  destruct t as [| x t]; simpl.
  - rewrite firstn_nil. reflexivity.
  - rewrite IH. reflexivity.
Qed.

Lemma slice_app (s : Py.str) (i k l : nat) :
  (i <= k <= l)%nat -> Py.slice s i k ++ Py.slice s k l = Py.slice s i l.
Proof.
  intros H. unfold Py.slice.
  replace (skipn k s) with (skipn (k - i) (skipn i s))
    by (rewrite skipn_skipn; f_equal; lia).
  rewrite firstn_app_skipn. f_equal. lia.
Qed.

Lemma slice_empty (s : Py.str) (i : nat) : Py.slice s i i = [].
Proof. unfold Py.slice. rewrite Nat.sub_diag. reflexivity. Qed.

Lemma slice_length (s : Py.str) (i j : nat) :
  (i <= j <= length s)%nat -> length (Py.slice s i j) = (j - i)%nat.
Proof.
  intros H. unfold Py.slice. rewrite length_firstn, length_skipn. lia.
Qed.

Lemma slice_to_end (s : Py.str) (i : nat) :
  Py.slice s i (length s) = skipn i s.
Proof.
  unfold Py.slice. apply firstn_all2. rewrite length_skipn. lia.
Qed.

Lemma slice_from_start (s : Py.str) (j : nat) : Py.slice s 0 j = firstn j s.
Proof. unfold Py.slice. rewrite Nat.sub_0_r. reflexivity. Qed.

Lemma is_digit_string_firstn (n : nat) :
  forall s, is_digit_string s = true -> is_digit_string (firstn n s) = true.
Proof.
  induction n as [| n IH]; intros [| c s] Hs; try reflexivity.
  apply is_digit_string_cons in Hs as [Hc Hs].
  cbn [firstn]. apply is_digit_string_cons. auto.
Qed.

Lemma is_digit_string_skipn (n : nat) :
  forall s, is_digit_string s = true -> is_digit_string (skipn n s) = true.
Proof.
  induction n as [| n IH]; intros [| c s] Hs; try reflexivity; try exact Hs.
  apply is_digit_string_cons in Hs as [_ Hs]. cbn [skipn]. auto.
Qed.

Lemma is_digit_string_slice (s : Py.str) (i j : nat) :
  is_digit_string s = true -> is_digit_string (Py.slice s i j) = true.
Proof.
  intros Hs. unfold Py.slice.
  apply is_digit_string_firstn, is_digit_string_skipn, Hs.
Qed.

Lemma slice_nonempty (s : Py.str) (i j : nat) :
  (i < j <= length s)%nat -> Py.slice s i j <> [].
Proof.
  intros H Hnil. apply (f_equal (@length Z)) in Hnil.
  rewrite slice_length in Hnil by lia. simpl in Hnil. lia.
Qed.

Lemma int_digit_string (s : Py.str) :
  s <> [] -> is_digit_string s = true ->
  Z.of_nat (length s) <= Py.max_str_digits ->
  Py.int s = Ok (Py.int_digits s).
Proof.
  intros Hne Hs Hcap. destruct s as [| c s]; [contradiction |].
  unfold Py.int. unfold is_digit_string in Hs. rewrite Hs.
  destruct (Z.ltb_spec Py.max_str_digits (Z.of_nat (length (c :: s))));
    [lia | reflexivity].
Qed.

Lemma int_Ok_inv (s : Py.str) (v : Z) :
  Py.int s = Ok v ->
  s <> [] /\ Z.of_nat (length s) <= Py.max_str_digits
  /\ is_digit_string s = true /\ v = Py.int_digits s.
Proof.
  unfold Py.int, is_digit_string. destruct s as [| c s]; [discriminate |].
  destruct (Z.ltb_spec Py.max_str_digits (Z.of_nat (length (c :: s))))
    as [Hcap | Hcap]; [discriminate |].
  destruct (forallb Py.is_digit (c :: s)); [| discriminate].
  intros Hv. injection Hv as <-. repeat split; try assumption. discriminate.
Qed.


Lemma to_str_digits (n : Z) :
  0 <= n -> Z.of_nat (length (Py.str_of_int n)) <= Py.max_str_digits ->
  Py.to_str n = Ok (Py.str_of_int n).
Proof.
  intros Hn Hcap. unfold Py.to_str.
  destruct (Z.ltb_spec n 0); [lia |].
  destruct (Z.ltb_spec Py.max_str_digits (Z.of_nat (length (Py.str_of_int n))));
    [lia | reflexivity].
Qed.

(** [str] of the value of a digit string within the limit returns: the
    value has no more digits than the string. *)
Lemma to_str_int_digits (s : Py.str) :
  s <> [] -> is_digit_string s = true ->
  Z.of_nat (length s) <= Py.max_str_digits ->
  Py.to_str (Py.int_digits s) = Ok (Py.str_of_int (Py.int_digits s)).
Proof.
  intros Hne Hs Hcap.
  pose proof (int_digits_bound s Hs) as Hb.
  apply to_str_digits; [lia |].
  destruct (str_of_int_spec (Py.int_digits s)) as (ds & -> & _ & _ & _ & Hlen);
    [lia |].
  assert (Hk : (length ds <= length s)%nat).
  { apply Hlen; [destruct s; [contradiction | simpl; lia] | lia]. }
  lia.
Qed.

Lemma groups_below_skipn_even (m : Z) (k : nat) :
  forall s, groups_below m s = true -> groups_below m (skipn (2 * k) s) = true.
Proof.
  induction k as [| k IH]; intros s Hs; [exact Hs |].
  replace (2 * S k)%nat with (S (S (2 * k))) by lia.
  destruct s as [| a [| b rest]]; try reflexivity.
  cbn [skipn]. apply IH.
  cbn [groups_below] in Hs. apply andb_true_iff in Hs. apply Hs.
Qed.

(** On such a string every group at an even offset is below the modulus. *)
Lemma groups_below_at (m : Z) (s : Py.str) (i : nat) :
  groups_below m s = true -> Nat.even i = true -> (i + 1 < length s)%nat ->
  Py.int_digits (Py.slice s i (i + 2)) < m.
Proof.
  intros Hs Hi Hlen.
  apply Nat.even_spec in Hi as [k ->].
  pose proof (groups_below_skipn_even m k s Hs) as Hk.
  unfold Py.slice. replace (2 * k + 2 - 2 * k)%nat with 2%nat by lia.
  pose proof (length_skipn (2 * k) s) as Hl.
  destruct (skipn (2 * k) s) as [| a [| b rest]]; simpl in Hl; try lia.
  cbn [groups_below] in Hk. apply andb_true_iff in Hk as [Hk _].
  apply Z.ltb_lt in Hk. exact Hk.
Qed.

(** ** The block packer *)

(** The inner loop appends [j] whole groups to the accumulator. It stops
    at the end of the input (or before a lone last character), or at the
    first group that would take the block to the modulus or above. *)
Lemma grow_block_spec (s : Py.str) (m : Z) (fuel : nat) :
  forall cb lc i,
    is_digit_string s = true -> is_digit_string cb = true ->
    Z.of_nat (length cb + (length s - i)) <= Py.max_str_digits ->
    (length s - i <= fuel)%nat ->
    exists j : nat,
      RSA.grow_block fuel s m cb lc i
      = Ok (cb ++ Py.slice s i (i + 2 * j), lc + Z.of_nat j, (i + 2 * j)%nat)
      /\ ((0 < j)%nat -> (i + 2 * j <= length s)%nat)
      /\ ((0 < j)%nat -> Py.int_digits (cb ++ Py.slice s i (i + 2 * j)) < m)
      /\ ((i + 2 * j + 1 < length s)%nat ->
          m <= Py.int_digits (cb ++ Py.slice s i (i + 2 * j + 2))).
Proof.
  induction fuel as [| fuel IH]; intros cb lc i Hs Hcb Hcap Hfuel;
    cbn [RSA.grow_block];
    destruct (Nat.ltb_spec i (length s)) as [Hi | Hi];
    try lia;
    try (exists 0%nat;
         rewrite Nat.mul_0_r, Nat.add_0_r, slice_empty, app_nil_r, Z.add_0_r;
         repeat split; try reflexivity; lia).
  destruct (Nat.ltb_spec (i + 1) (length s)) as [Hi1 | Hi1];
    [| exists 0%nat;
       rewrite Nat.mul_0_r, Nat.add_0_r, slice_empty, app_nil_r, Z.add_0_r;
       repeat split; try reflexivity; lia].
  assert (Hpair : is_digit_string (cb ++ Py.slice s i (i + 2)) = true).
  { apply is_digit_string_app. split; [exact Hcb |].
    apply is_digit_string_slice, Hs. }
  assert (Hne : cb ++ Py.slice s i (i + 2) <> []).
  { intros Hnil. apply app_eq_nil in Hnil as [_ Hnil].
    revert Hnil. apply slice_nonempty. lia. }
  assert (Hlen2 : length (cb ++ Py.slice s i (i + 2)) = (length cb + 2)%nat).
  { rewrite length_app, slice_length by lia. lia. }
  rewrite (int_digit_string _ Hne Hpair) by lia. cbn [bind].
  destruct (Z.ltb_spec (Py.int_digits (cb ++ Py.slice s i (i + 2))) m)
    as [Hlt | Hge].
  - destruct (IH (cb ++ Py.slice s i (i + 2)) (lc + 1) (i + 2)%nat Hs Hpair)
      as (j & Heq & Hin & Hbelow & Hstop); [lia | lia |].
    exists (S j).
    replace (i + 2 * S j)%nat with (i + 2 + 2 * j)%nat by lia.
    rewrite <- !app_assoc, !slice_app in * by lia.
    rewrite Heq.
    replace (lc + 1 + Z.of_nat j) with (lc + Z.of_nat (S j)) by lia.
    repeat split; try assumption.
    + intros _. destruct j as [| j]; [lia | apply Hin; lia].
    + intros _. destruct j as [| j]; [| apply Hbelow; lia].
      rewrite Nat.mul_0_r, Nat.add_0_r. exact Hlt.
  - exists 0%nat.
    rewrite Nat.mul_0_r, Nat.add_0_r, slice_empty, app_nil_r, Z.add_0_r.
    repeat split; try reflexivity; lia.
Qed.

(** Whatever the inner loop returns, on any input, is the accumulator
    followed by [j] whole groups, and its value is below the modulus when
    [j] is not zero. *)
Lemma grow_block_inv (s : Py.str) (m : Z) (fuel : nat) :
  forall cb lc i st,
    RSA.grow_block fuel s m cb lc i = Ok st ->
    exists j : nat,
      st = (cb ++ Py.slice s i (i + 2 * j), lc + Z.of_nat j, (i + 2 * j)%nat)
      /\ ((0 < j)%nat -> (i + 2 * j <= length s)%nat)
      /\ ((0 < j)%nat -> Py.int_digits (cb ++ Py.slice s i (i + 2 * j)) < m).
Proof.
  induction fuel as [| fuel IH]; intros cb lc i st Hrun;
    cbn [RSA.grow_block] in Hrun;
    destruct (Nat.ltb_spec i (length s)) as [Hi | Hi];
    try discriminate;
    try (injection Hrun as <-; exists 0%nat;
         rewrite Nat.mul_0_r, Nat.add_0_r, slice_empty, app_nil_r, Z.add_0_r;
         repeat split; try reflexivity; lia).
  destruct (Nat.ltb_spec (i + 1) (length s)) as [Hi1 | Hi1];
    [| injection Hrun as <-; exists 0%nat;
       rewrite Nat.mul_0_r, Nat.add_0_r, slice_empty, app_nil_r, Z.add_0_r;
       repeat split; try reflexivity; lia].
  destruct (Py.int (cb ++ Py.slice s i (i + 2))) as [v | e |] eqn:Hint;
    cbn [bind] in Hrun; try discriminate.
  apply int_Ok_inv in Hint as (_ & _ & _ & ->).
  destruct (Z.ltb_spec (Py.int_digits (cb ++ Py.slice s i (i + 2))) m)
    as [Hlt | Hge].
  - destruct (IH _ _ _ _ Hrun) as (j & -> & Hin & Hbelow).
    exists (S j).
    replace (i + 2 * S j)%nat with (i + 2 + 2 * j)%nat by lia.
    rewrite <- !app_assoc, !slice_app in * by lia.
    replace (lc + 1 + Z.of_nat j) with (lc + Z.of_nat (S j)) by lia.
    repeat split; try assumption.
    + intros _. destruct j as [| j]; [lia | apply Hin; lia].
    + intros _. destruct j as [| j]; [| apply Hbelow; lia].
      rewrite Nat.mul_0_r, Nat.add_0_r. exact Hlt.
  - injection Hrun as <-. exists 0%nat.
    rewrite Nat.mul_0_r, Nat.add_0_r, slice_empty, app_nil_r, Z.add_0_r.
    repeat split; try reflexivity; lia.
Qed.

(** What the inner loop returns from an empty accumulator, when it is
    not empty, is a block that satisfies the invariant. *)
Lemma grown_block_ok (s : Py.str) (m : Z) (i j : nat) :
  is_digit_string s = true -> Nat.even i = true ->
  (0 < j)%nat -> (i + 2 * j <= length s)%nat ->
  Py.int_digits (Py.slice s i (i + 2 * j)) < m ->
  block_ok s m (Py.int_digits (Py.slice s i (i + 2 * j)), 0 + Z.of_nat j).
Proof.
  intros Hs Hi Hj Hin Hlt. unfold block_ok.
  pose proof (is_digit_string_slice s i (i + 2 * j) Hs) as Hd.
  pose proof (int_digits_bound _ Hd) as Hb.
  rewrite slice_length in Hb by lia.
  replace (Z.to_nat (0 + Z.of_nat j)) with j by lia.
  repeat split; try lia.
  - apply Nat.even_spec in Hi as [k ->]. exists k. split; [lia | reflexivity].
  - destruct (str_of_int_spec (Py.int_digits (Py.slice s i (i + 2 * j))))
      as (ds & -> & _ & _ & _ & Hlen); [lia |].
    apply Hlen; [lia |].
    replace (Z.of_nat (2 * j)) with (Z.of_nat (i + 2 * j - i)) by lia.
    lia.
Qed.

Lemma even_add_groups (i j : nat) :
  Nat.even i = true -> Nat.even (i + 2 * j) = true.
Proof.
  intros Hi. rewrite Nat.even_add, Hi, Nat.even_mul. reflexivity.
Qed.

(** The outer loop keeps the invariant of the blocks, on every digit
    string and for every modulus. *)
Lemma split_loop_blocks_ok (s : Py.str) (m : Z) (fuel : nat) :
  forall blocks i bs,
    is_digit_string s = true -> Nat.even i = true ->
    Forall (block_ok s m) blocks ->
    RSA.split_loop fuel s m blocks i = Ok bs ->
    Forall (block_ok s m) bs.
Proof.
  induction fuel as [| fuel IH]; intros blocks i bs Hs Hi Hblocks Hrun;
    cbn [RSA.split_loop] in Hrun;
    destruct (Nat.ltb_spec i (length s)) as [Hlt | Hge];
    try discriminate;
    try (injection Hrun as <-; exact Hblocks).
  destruct (RSA.grow_block (length s) s m [] 0 i) as [st | e |] eqn:Hgrow;
    cbn [bind] in Hrun; try discriminate.
  apply grow_block_inv in Hgrow as (j & -> & Hin & Hbelow).
  cbn [app] in Hrun.
  destruct j as [| j].
  - rewrite Nat.mul_0_r, Nat.add_0_r, slice_empty in Hrun.
    apply (IH blocks i bs); assumption.
  - specialize (Hin ltac:(lia)). specialize (Hbelow ltac:(lia)).
    cbn [app] in Hbelow.
    pose proof (slice_nonempty s i (i + 2 * S j) ltac:(lia)) as Hne.
    destruct (Py.slice s i (i + 2 * S j)) as [| c cb] eqn:Hcb;
      [contradiction |].
    destruct (Py.int (c :: cb)) as [v | e |] eqn:Hint;
      cbn [bind] in Hrun; try discriminate.
    apply int_Ok_inv in Hint as (_ & _ & _ & ->).
    refine (IH _ _ bs Hs (even_add_groups i (S j) Hi) _ Hrun).
    apply Forall_app. split; [exact Hblocks |].
    constructor; [| constructor].
    rewrite <- Hcb. apply grown_block_ok; try assumption; try lia.
    rewrite Hcb. exact Hbelow.
Qed.

(** C4. Every block emitted by [pack(digit_string, modulus)] is the
    numeric parse of whole two-digit groups of the input (never of a
    partial group), its value is below the modulus, its letter count is at
    least 1, and the decimal string of its value has at most
    [2 * letter_count] digits. [split_into_blocks] is the same function
    in [RSA.py] and in [test_rsa.py]. *)
Theorem split_into_blocks_invariant
    (fuel : nat) (s : Py.str) (m : Z) (blocks : list RSA.block) :
  is_digit_string s = true ->
  RSA.split_into_blocks fuel s m = Ok blocks
  \/ TestRsa.split_into_blocks fuel s m = Ok blocks ->
  Forall (block_ok s m) blocks.
Proof.
  intros Hs Hrun.
  assert (Hrun' : RSA.split_loop fuel s m [] 0 = Ok blocks)
    by (destruct Hrun as [H | H]; exact H).
  apply (split_loop_blocks_ok s m fuel [] 0%nat blocks);
    [exact Hs | reflexivity | constructor | exact Hrun'].
Qed.

Lemma split_into_blocks_invariant_witness :
  Forall (block_ok (py "0704111114") 3233) [(704, 2); (1111, 2); (14, 1)].
Proof.
  apply (split_into_blocks_invariant 5 (py "0704111114") 3233);
    [reflexivity | left; reflexivity].
Defined.

Lemma even_lt_succ_lt (i n : nat) :
  Nat.even i = true -> Nat.even n = true -> (i < n)%nat -> (i + 1 < n)%nat.
Proof.
  intros Hi Hn Hlt.
  apply Nat.even_spec in Hi as [a ->]. apply Nat.even_spec in Hn as [b ->].
  lia.
Qed.

(** On a digit string of even length whose groups are all below the
    modulus the outer loop returns: each turn emits a block of at least
    one group, the blocks rebuild the rest of the input, and the last
    block is the parse of the groups that end the input. *)
Lemma split_loop_good (s : Py.str) (m : Z) (fuel : nat) :
  forall blocks i,
    is_digit_string s = true -> Nat.even (length s) = true ->
    groups_below m s = true ->
    Z.of_nat (length s) <= Py.max_str_digits ->
    Nat.even i = true -> (i <= length s)%nat -> (length s - i <= fuel)%nat ->
    exists bs,
      RSA.split_loop fuel s m blocks i = Ok (blocks ++ bs)
      /\ RSA.reconstruct_numeric_string bs = Ok (skipn i s)
      /\ ((length s <= i)%nat -> bs = [])
      /\ ((i < length s)%nat ->
          exists front value count,
            bs = front ++ [(value, Z.of_nat count)]
            /\ (1 <= count)%nat /\ (2 * count <= length s)%nat
            /\ value = Py.int_digits (skipn (length s - 2 * count) s)).
Proof.
  induction fuel as [| fuel IH];
    intros blocks i Hs Hlen Hgroups Hcap Hi Hile Hfuel;
    cbn [RSA.split_loop];
    destruct (Nat.ltb_spec i (length s)) as [Hlt | Hge];
    try lia;
    try (exists []; rewrite app_nil_r, skipn_all2 by lia;
         repeat split; try reflexivity; lia).
  pose proof (even_lt_succ_lt i (length s) Hi Hlen Hlt) as Hlt1.
  pose proof (groups_below_at m s i Hgroups Hi Hlt1) as Hfirst.
  destruct (grow_block_spec s m (length s) [] 0 i Hs eq_refl)
    as (j & Heq & Hin & Hbelow & Hstop); [simpl; lia | lia |].
  rewrite Heq. cbn [bind app]. cbn [app] in Hbelow, Hstop.
  destruct j as [| j].
  { rewrite Nat.mul_0_r, Nat.add_0_r in Hstop. specialize (Hstop Hlt1). lia. }
  specialize (Hin ltac:(lia)). specialize (Hbelow ltac:(lia)).
  pose proof (slice_nonempty s i (i + 2 * S j) ltac:(lia)) as Hne.
  pose proof (is_digit_string_slice s i (i + 2 * S j) Hs) as Hd.
  assert (Hcapb : Z.of_nat (length (Py.slice s i (i + 2 * S j)))
                  <= Py.max_str_digits)
    by (rewrite slice_length by lia; lia).
  pose proof (int_digit_string _ Hne Hd Hcapb) as Hint.
  pose proof (to_str_int_digits _ Hne Hd Hcapb) as Hstr.
  pose proof (zfill_str_int _ Hne Hd) as Hfill.
  rewrite slice_length in Hfill by lia.
  pose proof (slice_to_end s i) as Hend.
  rewrite <- (slice_app s i (i + 2 * S j) (length s)), slice_to_end in Hend
    by lia.
  destruct (Py.slice s i (i + 2 * S j)) as [| c cb] eqn:Hcb; [contradiction |].
  rewrite Hint. cbn [bind].
  destruct (IH (blocks ++ [(Py.int_digits (c :: cb), 0 + Z.of_nat (S j))])
              (i + 2 * S j)%nat Hs Hlen Hgroups Hcap
              (even_add_groups i (S j) Hi))
    as (bs & Hrun & Hrebuild & Hnone & Hlast); [lia | lia |].
  exists ((Py.int_digits (c :: cb), 0 + Z.of_nat (S j)) :: bs).
  rewrite Hrun, <- app_assoc. split; [reflexivity |]. split.
  - cbn [RSA.reconstruct_numeric_string]. rewrite Hstr. cbn [bind].
    rewrite Hrebuild. cbn [bind]. rewrite <- Hend.
    replace (Z.to_nat ((0 + Z.of_nat (S j)) * 2)) with (i + 2 * S j - i)%nat
      by lia.
    rewrite Hfill. reflexivity.
  - split; [lia |]. intros _.
    destruct (Nat.eq_dec (i + 2 * S j) (length s)) as [Hall | Hmore].
    + rewrite (Hnone ltac:(lia)).
      exists [], (Py.int_digits (c :: cb)), (S j).
      repeat split; try lia.
      replace (length s - 2 * S j)%nat with i by lia.
      rewrite <- Hend, Hall, skipn_all, app_nil_r. reflexivity.
    + destruct (Hlast ltac:(lia)) as (front & value & count & -> & Hc).
      exists ((Py.int_digits (c :: cb), 0 + Z.of_nat (S j)) :: front),
        value, count.
      split; [reflexivity | exact Hc].
Qed.

Lemma groups_below_mono (m m' : Z) :
  m <= m' -> forall s, groups_below m s = true -> groups_below m' s = true.
Proof.
  intros Hm. fix IH 1. intros [| a [| b rest]] Hs; try reflexivity.
  cbn [groups_below] in *. apply andb_true_iff in Hs as [Hab Hrest].
  apply andb_true_iff. split; [| apply IH, Hrest].
  apply Z.ltb_lt in Hab. apply Z.ltb_lt. lia.
Qed.

(** ** Strings above the limit of [int]

    On a string of zeros every value the inner loop tests is 0, so the
    accumulator grows until [int] is called on more than 4300 digits. *)

















(** ** The text codec *)

Lemma format_02d_letter (v : Z) :
  0 <= v <= 25 -> Py.format_02d v = [48 + v / 10; 48 + v mod 10].
Proof.
  intros Hv.
  assert (Hcases : v = 0 \/ v = 1 \/ v = 2 \/ v = 3 \/ v = 4 \/ v = 5 \/ v = 6
                   \/ v = 7 \/ v = 8 \/ v = 9 \/ v = 10 \/ v = 11 \/ v = 12
                   \/ v = 13 \/ v = 14 \/ v = 15 \/ v = 16 \/ v = 17 \/ v = 18
                   \/ v = 19 \/ v = 20 \/ v = 21 \/ v = 22 \/ v = 23 \/ v = 24
                   \/ v = 25) by lia.
  repeat (destruct Hcases as [-> | Hcases]; [reflexivity |]).
  subst v. reflexivity.
Qed.

Lemma is_upper_text_cons (c : Z) (text : Py.str) :
  is_upper_text (c :: text) = true
  <-> 65 <= c <= 90 /\ is_upper_text text = true.
Proof.
  unfold is_upper_text. cbn [forallb].
  rewrite !andb_true_iff, !Z.leb_le. tauto.
Qed.

Lemma str_le_letter (c : Z) :
  65 <= c <= 90 -> Py.str_le [65] [c] && Py.str_le [c] [90] = true.
Proof.
  intros Hc. cbn [Py.str_le].
  destruct (Z.ltb_spec 65 c), (Z.ltb_spec c 65), (Z.ltb_spec c 90),
    (Z.ltb_spec 90 c); try reflexivity; lia.
Qed.

Lemma str_upper_fixed (upper : Z -> Py.str) (text : Py.str) :
  (forall c, 65 <= c <= 90 -> upper c = [c]) ->
  is_upper_text text = true -> TestRsa.str_upper upper text = text.
Proof.
  intros Hupper. unfold TestRsa.str_upper.
  induction text as [| c text IH]; intros Ht; [reflexivity |].
  apply is_upper_text_cons in Ht as [Hc Ht].
  cbn [flat_map]. rewrite (Hupper c Hc), (IH Ht). reflexivity.
Qed.



(** The encoding of a text is a digit string of even length whose groups
    are letter indices. *)
Lemma encoding_well_formed (text : Py.str) :
  is_upper_text text = true ->
  is_digit_string (encoding text) = true
  /\ length (encoding text) = (2 * length text)%nat
  /\ groups_below 26 (encoding text) = true.
Proof.
  induction text as [| c text IH]; intros Ht; [repeat split |].
  apply is_upper_text_cons in Ht as [Hc Ht].
  destruct (IH Ht) as (Hd & Hl & Hg).
  pose proof (Z.div_mod (c - 65) 10 ltac:(lia)) as Hdm.
  pose proof (Z.mod_pos_bound (c - 65) 10 ltac:(lia)) as Hmod.
  assert (H0 : 0 <= (c - 65) / 10 <= 9) by lia.
  change (encoding (c :: text))
    with ((48 + (c - 65) / 10) :: (48 + (c - 65) mod 10) :: encoding text).
  repeat split.
  - apply is_digit_string_cons. split; [apply is_digit_range |].
    + unfold Py.digit_value. lia.
    + apply is_digit_string_cons. split; [apply is_digit_range | exact Hd].
      unfold Py.digit_value. lia.
  - cbn [length]. lia.
  - cbn [groups_below]. rewrite Hg, andb_true_r. apply Z.ltb_lt.
    unfold Py.int_digits, Py.digit_value. cbn [fold_left]. lia.
Qed.

(** On a digit string the decoding loop raises nothing: each turn adds
    the letter of its group, or nothing. *)
Lemma map_numbers_to_text_loop_spec (s : Py.str) (idxs : list nat) :
  forall text,
    is_digit_string s = true ->
    RSA.map_numbers_to_text_loop idxs s text
    = Ok (text ++ flat_map (group_letter s) idxs).
Proof.
  induction idxs as [| i idxs IH]; intros text Hs.
  - simpl. rewrite app_nil_r. reflexivity.
  - cbn [RSA.map_numbers_to_text_loop flat_map]. unfold group_letter at 1.
    destruct (Nat.ltb_spec (i + 1) (length s)) as [Hi | Hi];
      [| rewrite (IH text Hs); reflexivity].
    rewrite int_digit_string;
      [| apply slice_nonempty; lia | apply is_digit_string_slice, Hs
       | rewrite slice_length by lia; unfold Py.max_str_digits; lia].
    cbn [bind].
    destruct ((0 <=? Py.int_digits (Py.slice s i (i + 2)))
              && (Py.int_digits (Py.slice s i (i + 2)) <=? 25)) eqn:Hrange;
      [| rewrite (IH text Hs); reflexivity].
    apply andb_true_iff in Hrange as [H0 H25].
    apply Z.leb_le in H0, H25.
    unfold Py.chr.
    destruct (Z.leb_spec 0 (65 + Py.int_digits (Py.slice s i (i + 2))));
      [| lia].
    destruct (Z.ltb_spec (65 + Py.int_digits (Py.slice s i (i + 2))) 1114112);
      [| lia].
    cbn [andb bind]. rewrite (IH _ Hs), <- app_assoc. reflexivity.
Qed.

Lemma map_numbers_to_text_spec (s : Py.str) :
  is_digit_string s = true ->
  RSA.map_numbers_to_text s
  = Ok (flat_map (group_letter s) (Py.range_step2 (length s))).
Proof.
  intros Hs. unfold RSA.map_numbers_to_text.
  rewrite map_numbers_to_text_loop_spec by exact Hs. reflexivity.
Qed.

Lemma flat_map_map {A B C : Type} (f : B -> list C) (g : A -> B) (l : list A) :
  flat_map f (map g l) = flat_map (fun a => f (g a)) l.
Proof.
  induction l as [| a l IH]; [reflexivity |].
  cbn [map flat_map]. rewrite IH. reflexivity.
Qed.

Lemma group_letter_shift (a b : Z) (s : Py.str) (i : nat) :
  group_letter (a :: b :: s) (S (S i)) = group_letter s i.
Proof.
  unfold group_letter, Py.slice. cbn [length].
  replace (S (S i) + 2 - S (S i))%nat with (i + 2 - i)%nat by lia.
  cbn [skipn].
  destruct (Nat.ltb_spec (S (S i) + 1) (S (S (length s)))),
    (Nat.ltb_spec (i + 1) (length s)); try reflexivity; lia.
Qed.

Lemma group_letter_first (c : Z) (s : Py.str) :
  65 <= c <= 90 ->
  group_letter ((48 + (c - 65) / 10) :: (48 + (c - 65) mod 10) :: s) 0 = [c].
Proof.
  intros Hc.
  pose proof (Z.div_mod (c - 65) 10 ltac:(lia)) as Hdm.
  unfold group_letter, Py.slice. cbn [length Nat.ltb Nat.leb Nat.add Nat.sub
    skipn firstn].
  unfold Py.int_digits, Py.digit_value. cbn [fold_left].
  replace (10 * (10 * 0 + (48 + (c - 65) / 10 - 48))
           + (48 + (c - 65) mod 10 - 48)) with (c - 65) by lia.
  destruct (Z.leb_spec 0 (c - 65)); [| lia].
  destruct (Z.leb_spec (c - 65) 25); [| lia].
  cbn [andb]. f_equal. lia.
Qed.

Lemma group_letters_encoding (text : Py.str) :
  is_upper_text text = true ->
  flat_map (fun k => group_letter (encoding text) (2 * k)) (seq 0 (length text))
  = text.
Proof.
  induction text as [| c text IH]; intros Ht; [reflexivity |].
  apply is_upper_text_cons in Ht as [Hc Ht].
  change (encoding (c :: text))
    with ((48 + (c - 65) / 10) :: (48 + (c - 65) mod 10) :: encoding text).
  cbn [length seq flat_map]. rewrite <- seq_shift, flat_map_map.
  change (2 * 0)%nat with 0%nat. rewrite (group_letter_first c _ Hc).
  cbn [app]. f_equal.
  rewrite <- (IH Ht) at 2. apply flat_map_ext. intros k.
  replace (2 * S k)%nat with (S (S (2 * k))) by lia.
  apply group_letter_shift.
Qed.

(** Decoding the encoding of a text of upper-case letters gives the
    text back. *)
Lemma map_numbers_to_text_encoding (text : Py.str) :
  is_upper_text text = true ->
  RSA.map_numbers_to_text (encoding text) = Ok text.
Proof.
  intros Ht. destruct (encoding_well_formed text Ht) as (Hd & Hl & _).
  rewrite (map_numbers_to_text_spec _ Hd).
  unfold Py.range_step2. rewrite flat_map_map, Hl.
  rewrite Nat.add_1_r, Nat.div2_succ_double.
  rewrite (group_letters_encoding text Ht). reflexivity.
Qed.

(** The decoder returns on every string of decimal digits. *)
Lemma map_numbers_to_text_total (s : Py.str) :
  is_digit_string s = true ->
  exists text, RSA.map_numbers_to_text s = Ok text
               /\ TestRsa.numbers_to_text s = Ok text.
Proof.
  intros Hs. eexists. split; apply (map_numbers_to_text_spec s Hs).
Qed.

(** The encoder of [test_rsa.py] returns on every string: it upper-cases
    the whole text first and then reads it one character at a time. *)
Lemma text_to_numbers_loop_total (text : Py.str) :
  forall numeric_str,
    exists ds, TestRsa.text_to_numbers_loop text numeric_str = Ok ds.
Proof.
  induction text as [| c text IH]; intros numeric_str.
  - exists numeric_str. reflexivity.
  - cbn [TestRsa.text_to_numbers_loop Py.ord bind].
    destruct (Py.str_le [65] [c] && Py.str_le [c] [90]); apply IH.
Qed.

Lemma text_to_numbers_total (upper : Z -> Py.str) (text : Py.str) :
  exists ds, TestRsa.text_to_numbers upper text = Ok ds.
Proof. apply text_to_numbers_loop_total. Qed.

(** The encoder of [RSA.py] returns on every text whose letters have a
    one-character upper case. *)
Lemma map_text_to_numbers_loop_total
    (isalpha : Z -> bool) (upper : Z -> Py.str) (text : Py.str) :
  (forall c, In c text -> isalpha c = true -> length (upper c) = 1%nat) ->
  forall numeric_str,
    exists ds,
      RSA.map_text_to_numbers_loop isalpha upper text numeric_str = Ok ds.
Proof.
  induction text as [| c text IH]; intros Hone numeric_str.
  - exists numeric_str. reflexivity.
  - cbn [RSA.map_text_to_numbers_loop].
    assert (Hrest : forall c', In c' text -> isalpha c' = true ->
                               length (upper c') = 1%nat)
      by (intros c' Hin; apply Hone; right; exact Hin).
    destruct (isalpha c) eqn:Halpha; cbn [negb]; [| apply IH, Hrest].
    destruct (Py.str_le [65] (upper c) && Py.str_le (upper c) [90]);
      [| apply IH, Hrest].
    specialize (Hone c (or_introl eq_refl) Halpha).
    destruct (upper c) as [| u [| u' rest]]; try discriminate.
    cbn [Py.ord bind]. apply IH, Hrest.
Qed.

(** C9 at the text ["ß"] (U+00DF). The character is a letter and its
    upper case is the two-character string [SS], which lies between ["A"]
    and ["Z"]; [ord] of it raises [TypeError] in [map_text_to_numbers] of
    [RSA.py]. [text_to_numbers] of [test_rsa.py] encodes the same text
    as 1818. *)
Theorem map_text_to_numbers_sharp_s :
  Tables.isalpha 223 = true
  /\ Tables.upper 223 = py "SS"
  /\ RSA.map_text_to_numbers Tables.isalpha Tables.upper [223] = Raise TypeError
  /\ TestRsa.text_to_numbers Tables.upper [223] = Ok (py "1818").
Proof. repeat split; reflexivity. Qed.

(** ** RSA arithmetic *)

Lemma pow_fermat_mod (p M k : Z) :
  Z.prime p -> 0 <= k -> M ^ (1 + k * (p - 1)) mod p = M mod p.
Proof.
  intros Hp Hk. pose proof (Z.prime_ge_2 p Hp) as Hp2.
  assert (Hexp : 0 <= k * (p - 1)) by nia.
  destruct (Z.eq_dec (M mod p) 0) as [Hz | Hnz].
  - rewrite <- Z.mod_pow_l, Hz, Z.pow_0_l by lia. apply Z.mod_0_l. lia.
  - rewrite Z.pow_add_r, Z.pow_1_r, (Z.mul_comm k), Z.pow_mul_r by lia.
    rewrite <- Z.mul_mod_idemp_r, <- Z.mod_pow_l by lia.
    rewrite (Z.fermat_nz p M Hp Hnz), Z.pow_1_l by lia.
    rewrite Z.mul_mod_idemp_r, Z.mul_1_r by lia. reflexivity.
Qed.

Lemma coprime_mul_divide (p q c : Z) :
  Z.gcd q p = 1 -> (p | c) -> (q | c) -> (p * q | c).
Proof.
  intros Hg [k ->] Hq.
  rewrite Z.mul_comm in Hq. apply Z.gauss in Hq; [| exact Hg].
  destruct Hq as [j ->]. exists j. ring.
Qed.

Lemma mod_eq_divide (p a b : Z) : 0 < p -> a mod p = b mod p -> (p | a - b).
Proof.
  intros Hp H. apply Z.mod_divide; [lia |].
  rewrite Zminus_mod, H, Z.sub_diag. apply Z.mod_0_l. lia.
Qed.

Lemma distinct_primes_coprime (p q : Z) :
  Z.prime p -> Z.prime q -> p <> q -> Z.gcd q p = 1.
Proof.
  intros Hp Hq Hne. apply Z.coprime_prime_l; [exact Hq |].
  intros Hdiv. apply Hne. symmetry.
  apply Z.divide_prime_prime; assumption.
Qed.

Lemma totient_ge_2 (p q : Z) :
  Z.prime p -> Z.prime q -> p <> q -> 2 <= (p - 1) * (q - 1).
Proof.
  intros Hp Hq Hne.
  pose proof (Z.prime_ge_2 p Hp). pose proof (Z.prime_ge_2 q Hq). nia.
Qed.

(** The textbook identity: for distinct primes [p], [q] and an exponent
    that is 1 modulo [(p - 1)(q - 1)], every residue modulo [p * q] is
    fixed by the power. *)
Lemma rsa_identity (p q e d M : Z) :
  Z.prime p -> Z.prime q -> p <> q ->
  0 <= e * d -> (e * d) mod ((p - 1) * (q - 1)) = 1 ->
  0 <= M < p * q ->
  M ^ (e * d) mod (p * q) = M.
Proof.
  intros Hp Hq Hne Hed Hinv HM.
  pose proof (Z.prime_ge_2 p Hp) as Hp2.
  pose proof (Z.prime_ge_2 q Hq) as Hq2.
  pose proof (totient_ge_2 p q Hp Hq Hne) as Hphi.
  pose proof (Z.div_mod (e * d) ((p - 1) * (q - 1)) ltac:(lia)) as Hdm.
  rewrite Hinv in Hdm.
  assert (Hk : 0 <= e * d / ((p - 1) * (q - 1))) by (apply Z.div_pos; lia).
  remember (e * d / ((p - 1) * (q - 1))) as k eqn:Ek.
  apply Zdivide_mod_minus; [exact HM |].
  apply coprime_mul_divide.
  - apply distinct_primes_coprime; assumption.
  - apply mod_eq_divide; [lia |].
    replace (e * d) with (1 + (k * (q - 1)) * (p - 1)) by lia.
    apply pow_fermat_mod; [exact Hp | nia].
  - apply mod_eq_divide; [lia |].
    replace (e * d) with (1 + (k * (p - 1)) * (q - 1)) by lia.
    apply pow_fermat_mod; [exact Hq | nia].
Qed.

(** Encrypting and then decrypting a block value with the two
    exponentiations gives the value back. *)
Lemma mod_pow_roundtrip (p q e d M : Z) :
  Z.prime p -> Z.prime q -> p <> q ->
  1 <= e -> 0 <= d -> (e * d) mod ((p - 1) * (q - 1)) = 1 ->
  0 <= M < p * q ->
  TestRsa.modular_exponentiation M e (p * q) = Ok (M ^ e mod (p * q))
  /\ TestRsa.modular_exponentiation (M ^ e mod (p * q)) d (p * q) = Ok M.
Proof.
  intros Hp Hq Hne He Hd Hinv HM.
  pose proof (totient_ge_2 p q Hp Hq Hne) as Hphi.
  assert (Hdpos : 0 < d).
  { destruct (Z.eq_dec d 0) as [-> | Hnz]; [| lia].
    rewrite Z.mul_0_r, Z.mod_0_l in Hinv by lia. discriminate. }
  split; [apply test_mod_pow_pos; lia |].
  rewrite test_mod_pow_pos by lia.
  rewrite Z.mod_pow_l, <- Z.pow_mul_r by lia.
  f_equal. apply rsa_identity; try assumption. nia.
Qed.

Lemma is_prime_sound (p : Z) : is_prime p = true -> Z.prime p.
Proof.
  unfold is_prime. intros H. apply andb_true_iff in H as [H1 Hall].
  apply Z.ltb_lt in H1. split; [exact H1 |].
  intros n Hn Hdiv.
  rewrite forallb_forall in Hall.
  specialize (Hall (Z.to_nat n)).
  rewrite Z2Nat.id in Hall by lia.
  assert (Hin : In (Z.to_nat n) (seq 2 (Z.to_nat p - 2))) by (apply in_seq; lia).
  apply Hall in Hin. apply negb_true_iff, Z.eqb_neq in Hin.
  apply Hin. apply Z.mod_divide; [lia | exact Hdiv].
Qed.

Lemma tables_upper_fixed (c : Z) : 65 <= c <= 90 -> Tables.upper c = [c].
Proof.
  intros Hc. unfold Tables.upper.
  destruct (Z.leb_spec 97 c); [lia |]. cbn [andb].
  destruct (Z.eqb_spec c 223); [lia | reflexivity].
Qed.

(** ** The pipeline of [test_rsa.py] *)

Lemma encrypt_loop_spec (e n : Z) (blocks : list TestRsa.block) :
  0 < n -> 0 < e ->
  TestRsa.encrypt_loop blocks e n = Ok (map (encrypt_block e n) blocks).
Proof.
  intros Hn He. induction blocks as [| [M c] blocks IH]; [reflexivity |].
  cbn [TestRsa.encrypt_loop]. rewrite test_mod_pow_pos by lia.
  cbn [bind]. rewrite IH. reflexivity.
Qed.

Lemma decrypt_loop_encrypted (p q e d : Z) (blocks : list TestRsa.block) :
  Z.prime p -> Z.prime q -> p <> q ->
  1 <= e -> 0 <= d -> (e * d) mod ((p - 1) * (q - 1)) = 1 ->
  Forall (fun b => 0 <= fst b < p * q) blocks ->
  forall rebuilt numeric_str,
    RSA.reconstruct_numeric_string blocks = Ok rebuilt ->
    TestRsa.decrypt_loop (map (encrypt_block e (p * q)) blocks) d (p * q)
      numeric_str
    = Ok (numeric_str ++ rebuilt).
Proof.
  intros Hp Hq Hne He Hd Hinv Hall.
  induction Hall as [| [M c] blocks HM _ IH]; intros rebuilt numeric_str Hre.
  - injection Hre as <-. simpl. rewrite app_nil_r. reflexivity.
  - cbn [map TestRsa.decrypt_loop encrypt_block fst snd].
    destruct (mod_pow_roundtrip p q e d M Hp Hq Hne He Hd Hinv HM) as [_ Hback].
    rewrite Hback. cbn [bind].
    cbn [RSA.reconstruct_numeric_string] in Hre.
    destruct (Py.to_str M) as [M_str | ex |]; cbn [bind] in Hre;
      try discriminate.
    destruct (RSA.reconstruct_numeric_string blocks) as [rest | ex |];
      cbn [bind] in Hre; try discriminate.
    injection Hre as <-. cbn [bind].
    rewrite (IH rest _ eq_refl), <- app_assoc. reflexivity.
Qed.

Lemma block_ok_range (s : Py.str) (m : Z) (blocks : list RSA.block) :
  Forall (block_ok s m) blocks -> Forall (fun b => 0 <= fst b < m) blocks.
Proof.
  intros H. induction H as [| [v c] blocks Hb _ IH]; constructor; [| exact IH].
  destruct Hb as (_ & Hrange & _). exact Hrange.
Qed.






(** * Further properties of the two files *)

(** ** The arithmetic kernel *)

Lemma gcd_loop_spec (fuel : nat) :
  forall a b, Z.abs b <= Z.of_nat fuel ->
    TestRsa.gcd_loop fuel a b = Ok (Z.gcd a b).
Proof.
  induction fuel as [| fuel IH]; intros a b Hfuel; cbn [TestRsa.gcd_loop];
    destruct (Z.eqb_spec b 0) as [-> | Hb]; cbn [negb];
    try (rewrite Z.gcd_0_r; reflexivity); try lia.
  pose proof (abs_mod_lt a b Hb).
  rewrite IH by lia. rewrite gcd_mod_step by exact Hb. reflexivity.
Qed.

(** [gcd] of [test_rsa.py] returns, for all integers, the greatest
    common divisor (non-negative; [gcd(0, 0) = 0]). *)
Theorem test_gcd_correct (a b : Z) :
  TestRsa.gcd a b = Ok (Z.gcd a b) /\ 0 <= Z.gcd a b.
Proof.
  split; [| apply Z.gcd_nonneg].
  unfold TestRsa.gcd. apply gcd_loop_spec. rewrite Zabs2Nat.id_abs. lia.
Qed.

Lemma square_and_multiply_agree (fuel : nat) :
  forall r base exp m,
    RSA.square_and_multiply fuel r base exp m
    = TestRsa.square_and_multiply fuel r base exp m.
Proof.
  induction fuel as [| fuel IH]; intros r base exp m; [reflexivity |].
  cbn [RSA.square_and_multiply TestRsa.square_and_multiply].
  destruct (Z.gtb_spec exp 0) as [Hpos | Hnpos]; [| reflexivity].
  destruct (Z.gtb_spec (Z.shiftr exp 1) 0) as [Hmore | Hlast].
  - apply IH.
  - rewrite rsa_square_and_multiply_done, test_square_and_multiply_done by lia.
    reflexivity.
Qed.

(** The two exponentiation functions return the same outcome on every
    input, the error included: leaving out the last squaring, as
    [modular_exponentiation_traced] does, changes nothing. *)
Theorem mod_pow_implementations_agree (base exp m : Z) :
  RSA.modular_exponentiation_traced base exp m
  = TestRsa.modular_exponentiation base exp m.
Proof.
  unfold RSA.modular_exponentiation_traced, TestRsa.modular_exponentiation.
  destruct (Py.mod_ base m); cbn [bind]; try reflexivity.
  apply square_and_multiply_agree.
Qed.

Lemma square_and_multiply_step_nz (r base exp m : Z) :
  m <> 0 -> 0 < exp ->
  ((if negb (exp mod 2 =? 0) then (r * base) mod m else r)
   * ((base * base) mod m) ^ (exp / 2)) mod m
  = (r * base ^ exp) mod m.
Proof.
  intros Hm Hexp.
  pose proof (Z.div_mod exp 2 ltac:(lia)) as Hdm.
  pose proof (Z.mod_pos_bound exp 2 ltac:(lia)) as Hbit.
  assert (Hhalf : 0 <= exp / 2) by (apply Z.div_pos; lia).
  rewrite <- Z.mul_mod_idemp_r, Z.mod_pow_l, Z.mul_mod_idemp_r by exact Hm.
  replace ((base * base) ^ (exp / 2)) with (base ^ (2 * (exp / 2)))
    by (rewrite Z.pow_mul_r, Z.pow_2_r by lia; reflexivity).
  destruct (Z.eqb_spec (exp mod 2) 0) as [Hz | Hnz]; cbn [negb].
  - replace (2 * (exp / 2)) with exp by lia. reflexivity.
  - rewrite Z.mul_mod_idemp_l by exact Hm.
    rewrite <- Z.mul_assoc, <- Z.pow_succ_r by lia.
    replace (Z.succ (2 * (exp / 2))) with exp by lia. reflexivity.
Qed.

Lemma test_square_and_multiply_spec_nz (fuel : nat) :
  forall r base exp m,
    m <> 0 -> 0 < exp < 2 ^ Z.of_nat fuel ->
    TestRsa.square_and_multiply fuel r base exp m = Ok ((r * base ^ exp) mod m).
Proof.
  induction fuel as [| fuel IH]; intros r base exp m Hm Hexp.
  - simpl in Hexp. lia.
  - rewrite Nat2Z.inj_succ, Z.pow_succ_r in Hexp by lia.
    simpl. destruct (Z.gtb_spec exp 0); [| lia].
    rewrite land_1_mod_2, shiftr_1_div_2.
    pose proof (Z.div_mod exp 2 ltac:(lia)) as Hdm.
    pose proof (Z.mod_pos_bound exp 2 ltac:(lia)) as Hbit.
    destruct (Z.ltb_spec 0 (exp / 2)) as [Hmore | Hlast].
    + rewrite IH by lia. f_equal. apply square_and_multiply_step_nz; lia.
    + assert (Hone : exp = 1) by lia. subst exp.
      rewrite test_square_and_multiply_done by (simpl; lia).
      rewrite Z.pow_1_r. reflexivity.
Qed.

(** The outcome of the exponentiation on all integers: a zero modulus
    raises [ZeroDivisionError]; otherwise an exponent [<= 0] gives 1 and a
    positive exponent gives [base^exp mod m] with the sign of the modulus,
    as Python's [%] has it. *)
Theorem mod_pow_all_integers (base exp m : Z) :
  RSA.modular_exponentiation_traced base exp m
  = (if m =? 0 then Raise ZeroDivisionError
     else if exp <=? 0 then Ok 1
     else Ok (base ^ exp mod m)).
Proof.
  unfold RSA.modular_exponentiation_traced, Py.mod_.
  destruct (Z.eqb_spec m 0) as [-> | Hm]; [reflexivity |]. cbn [bind].
  rewrite square_and_multiply_agree.
  destruct (Z.leb_spec exp 0) as [Hle | Hpos].
  - apply test_square_and_multiply_done. exact Hle.
  - rewrite test_square_and_multiply_spec_nz
      by first [exact Hm | split; [lia | apply bits_bound; lia]].
    rewrite Z.mul_1_l, Z.mod_pow_l. reflexivity.
Qed.

Lemma euclid_sign_step (a b : Z) :
  b <> 0 -> euclid_sign b (a mod b) = euclid_sign a b.
Proof.
  intros Hb. unfold euclid_sign.
  destruct (Z.lt_total b 0) as [Hn | [H0 | Hp]]; [| contradiction |].
  - pose proof (Z.mod_neg_bound a b Hn).
    destruct (Z.ltb_spec 0 (a mod b)), (Z.eqb_spec (a mod b) 0),
      (Z.leb_spec 0 b), (Z.ltb_spec 0 b), (Z.eqb_spec b 0);
      try reflexivity; lia.
  - pose proof (Z.mod_pos_bound a b Hp).
    destruct (Z.ltb_spec 0 (a mod b)), (Z.eqb_spec (a mod b) 0),
      (Z.leb_spec 0 b), (Z.ltb_spec 0 b), (Z.eqb_spec b 0);
      try reflexivity; lia.
Qed.

Lemma extended_gcd_rec_related (fuel : nat) :
  forall a b, Z.abs b <= Z.of_nat fuel ->
    exists x y,
      TestRsa.extended_gcd_rec fuel a b = Ok (Z.gcd a b, x, y)
      /\ RSA.extended_gcd_rec fuel a b
         = Ok (euclid_sign a b * Z.gcd a b,
               euclid_sign a b * x, euclid_sign a b * y).
Proof.
  assert (Hbase : forall a,
             (Z.abs a, (if a >=? 0 then 1 else -1), 0)
             = (Z.gcd a 0, (if a >=? 0 then 1 else -1), 0)
             /\ (a, 1, 0)
                = (euclid_sign a 0 * Z.gcd a 0,
                   euclid_sign a 0 * (if a >=? 0 then 1 else -1),
                   euclid_sign a 0 * 0)).
  { intros a. rewrite Z.gcd_0_r. split; [reflexivity |].
    unfold euclid_sign. cbn [Z.ltb Z.eqb orb andb Z.compare].
    destruct (Z.leb_spec 0 a), (Z.geb_spec a 0); try lia;
      repeat f_equal; lia. }
  induction fuel as [| fuel IH]; intros a b Hfuel.
  - assert (b = 0) by lia. subst b. cbn.
    exists (if a >=? 0 then 1 else -1), 0.
    destruct (Hbase a) as [H1 H2]. rewrite <- H2, H1. split; reflexivity.
  - cbn [TestRsa.extended_gcd_rec RSA.extended_gcd_rec].
    destruct (Z.eqb_spec b 0) as [-> | Hb].
    + exists (if a >=? 0 then 1 else -1), 0.
      destruct (Hbase a) as [H1 H2]. rewrite <- H2, H1. split; reflexivity.
    + pose proof (abs_mod_lt a b Hb) as Hlt.
      destruct (IH b (a mod b)) as (x1 & y1 & Htest & Hrsa); [lia |].
      rewrite Htest, Hrsa. cbn [bind].
      rewrite (euclid_sign_step a b Hb), (gcd_mod_step a b Hb).
      exists y1, (x1 - a / b * y1). split; [reflexivity |].
      replace (euclid_sign a b * (x1 - a / b * y1))
        with (euclid_sign a b * x1 - a / b * (euclid_sign a b * y1)) by ring.
      reflexivity.
Qed.

Lemma extended_gcd_related (a b : Z) :
  exists x y,
    TestRsa.extended_gcd a b = Ok (Z.gcd a b, x, y)
    /\ RSA.extended_gcd a b
       = Ok (euclid_sign a b * Z.gcd a b,
             euclid_sign a b * x, euclid_sign a b * y).
Proof.
  unfold TestRsa.extended_gcd, RSA.extended_gcd.
  apply extended_gcd_rec_related. rewrite Zabs2Nat.id_abs. lia.
Qed.

(** [extended_gcd] of [RSA.py] returns the triple of [test_rsa.py]'s
    when [b > 0], or [b = 0] and [a >= 0], and that triple with its three
    components negated otherwise; the first component of [test_rsa.py]'s
    is the gcd. *)
Theorem extended_gcd_implementations_related (a b : Z) :
  exists x y,
    TestRsa.extended_gcd a b = Ok (Z.gcd a b, x, y)
    /\ RSA.extended_gcd a b
       = Ok (euclid_sign a b * Z.gcd a b,
             euclid_sign a b * x, euclid_sign a b * y).
Proof. exact (extended_gcd_related a b). Qed.

(** For a positive modulus [modinv] of [RSA.py] and [modular_inverse]
    of [test_rsa.py] return the same outcome, the error included. *)
Theorem modinv_agrees_positive_modulus (e phi : Z) :
  0 < phi -> RSA.modinv e phi = TestRsa.modular_inverse e phi.
Proof.
  intros Hphi. unfold RSA.modinv, TestRsa.modular_inverse.
  destruct (extended_gcd_related e phi) as (x & y & Ht & Hr).
  rewrite Ht, Hr. unfold euclid_sign.
  destruct (Z.ltb_spec 0 phi); [| lia]. cbn [orb bind].
  rewrite !Z.mul_1_l. reflexivity.
Qed.

Lemma modinv_agrees_positive_modulus_witness :
  RSA.modinv 17 3120 = TestRsa.modular_inverse 17 3120.
Proof. apply (modinv_agrees_positive_modulus 17 3120). lia. Defined.

(** For a negative modulus [modinv] of [RSA.py] raises [ValueError]
    whatever [e] is, also when [gcd(e, phi) = 1]: the first component of
    its [extended_gcd] is then negative or zero. *)
Theorem modinv_negative_modulus_raises (e phi : Z) :
  phi < 0 -> RSA.modinv e phi = Raise ValueError.
Proof.
  intros Hphi. unfold RSA.modinv.
  destruct (extended_gcd_related e phi) as (x & y & _ & Hr).
  rewrite Hr. unfold euclid_sign.
  destruct (Z.ltb_spec 0 phi); [lia |].
  destruct (Z.eqb_spec phi 0); [lia |]. cbn [orb andb bind].
  pose proof (Z.gcd_nonneg e phi).
  destruct (Z.eqb_spec (-1 * Z.gcd e phi) 1); [lia | reflexivity].
Qed.

Lemma modinv_negative_modulus_raises_witness :
  Z.gcd 3 (-2) = 1 /\ RSA.modinv 3 (-2) = Raise ValueError.
Proof.
  split; [reflexivity |]. apply (modinv_negative_modulus_raises 3 (-2)). lia.
Defined.

(** ** The primality test *)

Lemma factor_twos_spec (fuel : nat) :
  forall r d, 0 <= r -> 0 < d < 2 ^ Z.of_nat fuel ->
    exists r' d',
      RSA.factor_twos fuel r d = Ok (r', d')
      /\ r <= r' /\ 0 < d' /\ d = 2 ^ (r' - r) * d'.
Proof.
  induction fuel as [| fuel IH]; intros r d Hr Hd.
  - simpl in Hd. lia.
  - rewrite Nat2Z.inj_succ, Z.pow_succ_r in Hd by lia.
    cbn [RSA.factor_twos].
    destruct (Z.eqb_spec (d mod 2) 0) as [Heven | Hodd].
    + pose proof (Z.div_mod d 2 ltac:(lia)) as Hdm.
      destruct (IH (r + 1) (d / 2)) as (r' & d' & Heq & Hle & Hpos & Hval);
        [lia | lia |].
      exists r', d'. repeat split; try assumption; try lia.
      replace (r' - r) with (Z.succ (r' - (r + 1))) by lia.
      rewrite Z.pow_succ_r by lia. lia.
    + exists r, d. rewrite Z.sub_diag. repeat split; try lia.
Qed.

(** Modulo a prime the only square roots of 1 are 1 and -1. *)
Lemma sqrt_one_mod_prime (n x : Z) :
  Z.prime n -> 0 <= x < n -> (x * x) mod n = 1 -> x = 1 \/ x = n - 1.
Proof.
  intros Hn Hx Hsq. pose proof (Z.prime_ge_2 n Hn) as Hn2.
  assert (Hdiv : (n | (x - 1) * (x + 1))).
  { replace ((x - 1) * (x + 1)) with (x * x - 1) by ring.
    apply Zmod_divide_minus; [lia | exact Hsq]. }
  apply Z.divide_prime_mul in Hdiv; [| exact Hn].
  destruct Hdiv as [[k Hk] | [k Hk]].
  - left. assert (k = 0) by nia. lia.
  - right. assert (k = 1) by nia. lia.
Qed.

(** A residue whose [2^t]-th power is 1 modulo a prime is 1, or -1, or
    reaches -1 within [t - 1] squarings. *)
Lemma squarings_reach_minus_one (n : Z) (t : nat) :
  Z.prime n -> 5 <= n ->
  forall x, 0 <= x < n -> x ^ (2 ^ Z.of_nat t) mod n = 1 ->
    x = 1 \/ x = n - 1 \/ RSA.squarings (t - 1) x n = true.
Proof.
  intros Hn Hn5. induction t as [| t IH]; intros x Hx Hpow.
  - left. change (2 ^ Z.of_nat 0) with 1 in Hpow.
    rewrite Z.pow_1_r, Z.mod_small in Hpow by lia. exact Hpow.
  - rewrite Nat2Z.inj_succ, Z.pow_succ_r, Z.pow_mul_r in Hpow by lia.
    rewrite <- Z.mod_pow_l in Hpow.
    destruct (IH (x ^ 2 mod n)) as [H1 | [Hm1 | Hsq]];
      [apply Z.mod_pos_bound; lia | exact Hpow | | |].
    + rewrite Z.pow_2_r in H1.
      destruct (sqrt_one_mod_prime n x Hn Hx H1); auto.
    + right. right. destruct t as [| t].
      * change (2 ^ Z.of_nat 0) with 1 in Hpow.
        rewrite Z.pow_1_r, Z.mod_mod in Hpow by lia. lia.
      * replace (S (S t) - 1)%nat with (S t) by lia.
        cbn [RSA.squarings]. rewrite Hm1, Z.eqb_refl. reflexivity.
    + right. right. destruct t as [| t]; [discriminate |].
      replace (S (S t) - 1)%nat with (S t) by lia.
      replace (S t - 1)%nat with t in Hsq by lia.
      cbn [RSA.squarings]. rewrite Hsq.
      destruct (x ^ 2 mod n =? n - 1); reflexivity.
Qed.

Lemma rounds_accept_prime (randrange : nat -> Z -> Z -> Z) (n r d : Z) :
  randrange_in_range randrange -> Z.prime n -> 5 <= n ->
  0 <= r -> 0 < d -> n - 1 = 2 ^ r * d ->
  forall turns call, RSA.rounds randrange turns call n r d = Ok true.
Proof.
  intros Hrand Hn Hn5 Hr Hd Hfact.
  induction turns as [| turns IH]; intros call; [reflexivity |].
  cbn [RSA.rounds]. unfold RSA.draw.
  destruct (Z.ltb_spec 2 (n - 1)); [| lia]. cbn [bind].
  pose proof (Hrand call 2 (n - 1) ltac:(lia)) as Ha.
  set (a := randrange call 2 (n - 1)) in *.
  assert (Hx : 0 <= a ^ d mod n < n) by (apply Z.mod_pos_bound; lia).
  assert (Hpow : (a ^ d mod n) ^ (2 ^ Z.of_nat (Z.to_nat r)) mod n = 1).
  { rewrite Z2Nat.id by lia.
    rewrite Z.mod_pow_l, <- Z.pow_mul_r by (try apply Z.pow_nonneg; lia).
    rewrite (Z.mul_comm d), <- Hfact.
    apply Z.fermat_nz; [exact Hn |].
    rewrite Z.mod_small by lia. lia. }
  destruct (squarings_reach_minus_one n (Z.to_nat r) Hn Hn5 _ Hx Hpow)
    as [H1 | [Hm1 | Hsq]].
  - rewrite H1. cbn [Z.eqb Pos.eqb orb]. apply IH.
  - rewrite Hm1, Z.eqb_refl, orb_true_r. apply IH.
  - replace (Z.to_nat (r - 1)) with (Z.to_nat r - 1)%nat by lia.
    rewrite Hsq.
    destruct ((a ^ d mod n =? 1) || (a ^ d mod n =? n - 1)); apply IH.
Qed.

Lemma prime_passes_test
    (randrange : nat -> Z -> Z -> Z) (n k : Z) :
  randrange_in_range randrange -> Z.prime n ->
  RSA.is_probable_prime randrange n k = Ok true.
Proof.
  intros Hrand Hn. pose proof (Z.prime_ge_2 n Hn) as Hn2.
  unfold RSA.is_probable_prime.
  destruct (Z.ltb_spec n 2); [lia |].
  destruct (Z.eqb_spec n 2); [reflexivity |].
  destruct (Z.eqb_spec n 3); [reflexivity |]. cbn [orb].
  destruct (Z.eqb_spec (n mod 2) 0) as [Heven | Hodd].
  - exfalso. destruct Hn as [_ Hdiv]. apply (Hdiv 2); [lia |].
    apply Z.mod_divide; [lia | exact Heven].
  - assert (Hn5 : 5 <= n).
    { destruct (Z.eq_dec n 4) as [-> | ]; [exfalso; apply Hodd; reflexivity | lia]. }
    destruct (factor_twos_spec (S (Z.to_nat (Z.log2 (n - 1)))) 0 (n - 1))
      as (r & d & Heq & Hr & Hd & Hfact);
      [lia | split; [lia | apply bits_bound; lia] |].
    rewrite Heq. cbn [bind]. rewrite Z.sub_0_r in Hfact.
    apply rounds_accept_prime; assumption.
Qed.

(** The test has no false negative: for every prime [n], every number
    of rounds and every random source that draws within the range asked
    for, [is_probable_prime] returns [True]. *)
Theorem is_probable_prime_accepts_primes
    (randrange : nat -> Z -> Z -> Z) (n k : Z) :
  randrange_in_range randrange -> Z.prime n ->
  RSA.is_probable_prime randrange n k = Ok true.
Proof. exact (prime_passes_test randrange n k). Qed.

Lemma is_probable_prime_accepts_primes_witness :
  RSA.is_probable_prime (fun _ lo _ => lo) 61 10 = Ok true.
Proof.
  apply (is_probable_prime_accepts_primes (fun _ lo _ => lo) 61 10).
  - intros k lo hi Hlt. lia.
  - apply is_prime_sound. reflexivity.
Defined.

Lemma rounds_return (randrange : nat -> Z -> Z -> Z) (n r d : Z) :
  5 <= n ->
  forall turns call, exists b, RSA.rounds randrange turns call n r d = Ok b.
Proof.
  intros Hn5. induction turns as [| turns IH]; intros call;
    [exists true; reflexivity |].
  cbn [RSA.rounds]. unfold RSA.draw.
  destruct (Z.ltb_spec 2 (n - 1)); [| lia]. cbn [bind].
  destruct ((randrange call 2 (n - 1) ^ d mod n =? 1)
            || (randrange call 2 (n - 1) ^ d mod n =? n - 1)); [apply IH |].
  destruct (RSA.squarings (Z.to_nat (r - 1))
              (randrange call 2 (n - 1) ^ d mod n) n);
    [apply IH | exists false; reflexivity].
Qed.

(** The test always answers: for every integer [n], every number of
    rounds and every random source it returns a boolean. The loop that
    halves [n - 1] ends, and the range of the bases, asked for only when
    [n >= 5], is never empty. *)
Theorem is_probable_prime_returns
    (randrange : nat -> Z -> Z -> Z) (n k : Z) :
  exists b, RSA.is_probable_prime randrange n k = Ok b.
Proof.
  unfold RSA.is_probable_prime.
  destruct (Z.ltb_spec n 2); [exists false; reflexivity |].
  destruct (Z.eqb_spec n 2); [exists true; reflexivity |].
  destruct (Z.eqb_spec n 3); [exists true; reflexivity |]. cbn [orb].
  destruct (Z.eqb_spec (n mod 2) 0) as [Heven | Hodd];
    [exists false; reflexivity |].
  assert (Hn5 : 5 <= n).
  { destruct (Z.eq_dec n 4) as [-> | ]; [exfalso; apply Hodd; reflexivity | lia]. }
  destruct (factor_twos_spec (S (Z.to_nat (Z.log2 (n - 1)))) 0 (n - 1))
    as (r & d & Heq & _); [lia | split; [lia | apply bits_bound; lia] |].
  rewrite Heq. cbn [bind]. apply rounds_return. exact Hn5.
Qed.

Lemma is_probable_prime_true_ge_2
    (randrange : nat -> Z -> Z -> Z) (n k : Z) :
  RSA.is_probable_prime randrange n k = Ok true -> 2 <= n.
Proof.
  unfold RSA.is_probable_prime.
  destruct (Z.ltb_spec n 2); [discriminate | lia].
Qed.

(** ** Key validation *)

(** [validate_keys] accepts every valid key: for primes [p] and [q],
    the modulus [p * q] and an exponent coprime to [(p - 1)(q - 1)] it
    returns [True] with [(p - 1)(q - 1)] and the message of valid keys,
    whatever the random source draws within its ranges. *)
Theorem validate_keys_accepts_valid
    (randrange_p randrange_q : nat -> Z -> Z -> Z) (p q e : Z) :
  randrange_in_range randrange_p -> randrange_in_range randrange_q ->
  Z.prime p -> Z.prime q -> Z.gcd e ((p - 1) * (q - 1)) = 1 ->
  RSA.validate_keys randrange_p randrange_q p q (p * q) e
  = Ok (true, Some ((p - 1) * (q - 1)), RSA.ValidKeys).
Proof.
  intros Hrp Hrq Hp Hq Hg. unfold RSA.validate_keys.
  rewrite (prime_passes_test randrange_p p 10 Hrp Hp).
  cbn [bind negb].
  rewrite (prime_passes_test randrange_q q 10 Hrq Hq).
  cbn [bind negb]. rewrite Z.eqb_refl, Hg. reflexivity.
Qed.

Lemma validate_keys_accepts_valid_witness :
  RSA.validate_keys (fun _ lo _ => lo) (fun _ lo _ => lo) 61 53 (61 * 53) 17
  = Ok (true, Some ((61 - 1) * (53 - 1)), RSA.ValidKeys).
Proof.
  apply (validate_keys_accepts_valid
           (fun _ lo _ => lo) (fun _ lo _ => lo) 61 53 17).
  - intros k lo hi Hlt. lia.
  - intros k lo hi Hlt. lia.
  - apply is_prime_sound. reflexivity.
  - apply is_prime_sound. reflexivity.
  - reflexivity.
Defined.

(** What acceptance guarantees. When [validate_keys] returns [True] its
    second component is [(p - 1)(q - 1)], both numbers passed the
    primality test and are at least 2, [p * q] is the modulus and the
    exponent is coprime to [phi]; [modinv(e, phi)] then returns a [d] in
    [[0, phi)], and [(e * d) mod phi] is 1 unless [p = q = 2] (modulus 4,
    [phi = 1]), where it is 0. *)
Theorem validate_keys_accepted
    (randrange_p randrange_q : nat -> Z -> Z -> Z) (p q m e : Z)
    (phi : option Z) (msg : RSA.key_message) :
  RSA.validate_keys randrange_p randrange_q p q m e = Ok (true, phi, msg) ->
  phi = Some ((p - 1) * (q - 1)) /\ msg = RSA.ValidKeys
  /\ RSA.is_probable_prime randrange_p p 10 = Ok true
  /\ RSA.is_probable_prime randrange_q q 10 = Ok true
  /\ 2 <= p /\ 2 <= q /\ p * q = m
  /\ Z.gcd e ((p - 1) * (q - 1)) = 1
  /\ exists d,
       RSA.modinv e ((p - 1) * (q - 1)) = Ok d
       /\ 0 <= d < (p - 1) * (q - 1)
       /\ (e * d) mod ((p - 1) * (q - 1)) = (if m =? 4 then 0 else 1).
Proof.
  unfold RSA.validate_keys. intros H.
  destruct (RSA.is_probable_prime randrange_p p 10) as [[|] | |] eqn:Hpp;
    cbn [bind negb] in H; try discriminate.
  destruct (RSA.is_probable_prime randrange_q q 10) as [[|] | |] eqn:Hqq;
    cbn [bind negb] in H; try discriminate.
  destruct (Z.eqb_spec (p * q) m) as [Hm | Hm]; cbn [negb] in H;
    try discriminate.
  destruct (Z.eqb_spec (Z.gcd e ((p - 1) * (q - 1))) 1) as [Hg | Hg];
    cbn [negb] in H; try discriminate.
  injection H as <- <-.
  pose proof (is_probable_prime_true_ge_2 _ _ _ Hpp) as Hp2.
  pose proof (is_probable_prime_true_ge_2 _ _ _ Hqq) as Hq2.
  repeat split; try assumption; try reflexivity.
  destruct (Z.eqb_spec m 4) as [Hm4 | Hm4].
  - assert (p = 2 /\ q = 2) as [-> ->] by nia.
    exists 0. change ((2 - 1) * (2 - 1)) with 1.
    unfold RSA.modinv.
    destruct (extended_gcd_related e 1) as (x & y & _ & Hx).
    rewrite Hx, Z.gcd_1_r. unfold euclid_sign.
    cbn [Z.ltb Z.compare orb Z.mul Pos.mul bind Z.eqb Pos.eqb negb].
    unfold Py.mod_. cbn [Z.eqb]. rewrite Z.mod_1_r, Z.mul_0_r.
    repeat split; try reflexivity; lia.
  - apply rsa_modinv_coprime; [nia | exact Hg].
Qed.

Lemma validate_keys_accepted_witness :
  Some 1 = Some ((2 - 1) * (2 - 1)) /\ RSA.ValidKeys = RSA.ValidKeys
  /\ RSA.is_probable_prime (fun _ lo _ => lo) 2 10 = Ok true
  /\ RSA.is_probable_prime (fun _ lo _ => lo) 2 10 = Ok true
  /\ 2 <= 2 /\ 2 <= 2 /\ 2 * 2 = 4
  /\ Z.gcd 3 ((2 - 1) * (2 - 1)) = 1
  /\ exists d,
       RSA.modinv 3 ((2 - 1) * (2 - 1)) = Ok d
       /\ 0 <= d < (2 - 1) * (2 - 1)
       /\ (3 * d) mod ((2 - 1) * (2 - 1)) = (if 4 =? 4 then 0 else 1).
Proof.
  apply (validate_keys_accepted (fun _ lo _ => lo) (fun _ lo _ => lo)
           2 2 4 3 (Some 1) RSA.ValidKeys).
  reflexivity.
Defined.

(** ** The codec on every text *)

Lemma str_le_single (c : Z) :
  Py.str_le [65] [c] && Py.str_le [c] [90] = (65 <=? c) && (c <=? 90).
Proof.
  cbn [Py.str_le].
  destruct (Z.ltb_spec 65 c), (Z.ltb_spec c 65), (Z.ltb_spec c 90),
    (Z.ltb_spec 90 c), (Z.leb_spec 65 c), (Z.leb_spec c 90);
    try reflexivity; lia.
Qed.

Lemma az_letters_upper (text : Py.str) :
  is_upper_text (az_letters text) = true.
Proof.
  unfold is_upper_text, az_letters. apply forallb_forall.
  intros c Hin. apply filter_In in Hin. apply Hin.
Qed.

Lemma az_letters_fixed (text : Py.str) :
  is_upper_text text = true -> az_letters text = text.
Proof.
  unfold az_letters. induction text as [| c text IH]; intros Ht;
    [reflexivity |].
  apply is_upper_text_cons in Ht as [Hc Ht]. cbn [filter].
  destruct (Z.leb_spec 65 c), (Z.leb_spec c 90); try lia.
  cbn [andb]. rewrite (IH Ht). reflexivity.
Qed.

Lemma text_to_numbers_loop_any (text : Py.str) :
  forall numeric_str,
    TestRsa.text_to_numbers_loop text numeric_str
    = Ok (numeric_str ++ encoding (az_letters text)).
Proof.
  induction text as [| c text IH]; intros numeric_str.
  - simpl. rewrite app_nil_r. reflexivity.
  - cbn [TestRsa.text_to_numbers_loop az_letters filter].
    rewrite str_le_single.
    destruct ((65 <=? c) && (c <=? 90)) eqn:Hc.
    + apply andb_true_iff in Hc as [H1 H2]. apply Z.leb_le in H1, H2.
      cbn [Py.ord bind]. rewrite format_02d_letter by lia.
      rewrite IH, <- app_assoc. reflexivity.
    + apply IH.
Qed.

Lemma text_to_numbers_any (upper : Z -> Py.str) (text : Py.str) :
  TestRsa.text_to_numbers upper text
  = Ok (encoding (az_letters (TestRsa.str_upper upper text))).
Proof. apply (text_to_numbers_loop_any _ []). Qed.

(** On every text the codec of [test_rsa.py] normalises: the encoder
    returns a digit string of two digits per kept letter, every group a
    letter index, and decoding it gives the characters A to Z of the
    upper-cased text. *)
Theorem codec_normalises (upper : Z -> Py.str) (text : Py.str) :
  exists ds,
    TestRsa.text_to_numbers upper text = Ok ds
    /\ is_digit_string ds = true
    /\ length ds = (2 * length (az_letters (TestRsa.str_upper upper text)))%nat
    /\ groups_below 26 ds = true
    /\ TestRsa.numbers_to_text ds
       = Ok (az_letters (TestRsa.str_upper upper text)).
Proof.
  exists (encoding (az_letters (TestRsa.str_upper upper text))).
  pose proof (az_letters_upper (TestRsa.str_upper upper text)) as Hup.
  destruct (encoding_well_formed _ Hup) as (Hd & Hl & Hg).
  repeat split; try assumption.
  - apply text_to_numbers_any.
  - apply (map_numbers_to_text_encoding _ Hup).
Qed.

Lemma map_text_to_numbers_loop_shape
    (isalpha : Z -> bool) (upper : Z -> Py.str) (text : Py.str) :
  forall letters ds,
    is_upper_text letters = true ->
    RSA.map_text_to_numbers_loop isalpha upper text (encoding letters) = Ok ds ->
    exists letters',
      is_upper_text letters' = true /\ ds = encoding letters'
      /\ (length letters' <= length letters + length text)%nat.
Proof.
  induction text as [| c text IH]; intros letters ds Hl Hrun.
  - injection Hrun as <-. exists letters. repeat split; [exact Hl | simpl; lia].
  - cbn [RSA.map_text_to_numbers_loop] in Hrun.
    assert (Hskip : RSA.map_text_to_numbers_loop isalpha upper text
                      (encoding letters) = Ok ds ->
                    exists letters',
                      is_upper_text letters' = true /\ ds = encoding letters'
                      /\ (length letters' <= length letters + length (c :: text))%nat).
    { intros H. destruct (IH letters ds Hl H) as (l' & H1 & H2 & H3).
      exists l'. repeat split; try assumption. simpl. lia. }
    destruct (isalpha c); cbn [negb] in Hrun; [| apply Hskip, Hrun].
    destruct (Py.str_le [65] (upper c) && Py.str_le (upper c) [90]) eqn:Hrange;
      [| apply Hskip, Hrun].
    destruct (upper c) as [| u [| u' rest]]; cbn [Py.ord bind] in Hrun;
      try discriminate.
    rewrite str_le_single in Hrange.
    apply andb_true_iff in Hrange as [H1 H2]. apply Z.leb_le in H1, H2.
    rewrite format_02d_letter in Hrun by lia.
    assert (Henc : encoding letters
                   ++ [48 + (u - 65) / 10; 48 + (u - 65) mod 10]
                   = encoding (letters ++ [u])).
    { unfold encoding. rewrite flat_map_app. cbn [flat_map].
      rewrite app_nil_r. reflexivity. }
    rewrite Henc in Hrun.
    destruct (IH (letters ++ [u]) ds) as (l' & Hl1 & Hl2 & Hl3); [| exact Hrun |].
    + unfold is_upper_text. rewrite forallb_app. fold (is_upper_text letters).
      rewrite Hl. cbn [forallb andb].
      destruct (Z.leb_spec 65 u), (Z.leb_spec u 90);
        solve [lia | reflexivity].
    + exists l'. repeat split; try assumption.
      rewrite length_app in Hl3. simpl in *. lia.
Qed.

(** Whenever the encoder of [RSA.py] returns, whatever [isalpha] and
    [upper] are, its output is a digit string of even length whose groups
    are letter indices, of at most two digits per character of the text,
    and the decoder returns on it a text of upper-case letters. *)
Theorem map_text_to_numbers_output
    (isalpha : Z -> bool) (upper : Z -> Py.str) (text ds : Py.str) :
  RSA.map_text_to_numbers isalpha upper text = Ok ds ->
  is_digit_string ds = true
  /\ Nat.even (length ds) = true
  /\ (length ds <= 2 * length text)%nat
  /\ groups_below 26 ds = true
  /\ exists letters,
       RSA.map_numbers_to_text ds = Ok letters
       /\ is_upper_text letters = true
       /\ length ds = (2 * length letters)%nat.
Proof.
  intros Hrun.
  destruct (map_text_to_numbers_loop_shape isalpha upper text [] ds eq_refl Hrun)
    as (letters & Hup & -> & Hlen).
  destruct (encoding_well_formed letters Hup) as (Hd & Hl & Hg).
  repeat split; try assumption.
  - rewrite Hl, Nat.even_mul. reflexivity.
  - rewrite Hl. simpl in Hlen. lia.
  - exists letters. repeat split; try assumption.
    apply (map_numbers_to_text_encoding letters Hup).
Qed.

Lemma map_text_to_numbers_output_witness :
  is_digit_string (py "0704111114") = true
  /\ Nat.even (length (py "0704111114")) = true
  /\ (length (py "0704111114") <= 2 * length (py "Hello!"))%nat
  /\ groups_below 26 (py "0704111114") = true
  /\ exists letters,
       RSA.map_numbers_to_text (py "0704111114") = Ok letters
       /\ is_upper_text letters = true
       /\ length (py "0704111114") = (2 * length letters)%nat.
Proof.
  apply (map_text_to_numbers_output Tables.isalpha Tables.upper
           (py "Hello!") (py "0704111114")).
  reflexivity.
Defined.

Lemma group_letter_shape (s : Py.str) (i : nat) :
  is_upper_text (group_letter s i) = true
  /\ (length (group_letter s i) <= 1)%nat
  /\ ((length s <= i + 1)%nat -> group_letter s i = []).
Proof.
  unfold group_letter.
  destruct (Nat.ltb_spec (i + 1) (length s)) as [Hi | Hi];
    [| repeat split; simpl; lia].
  destruct ((0 <=? Py.int_digits (Py.slice s i (i + 2)))
            && (Py.int_digits (Py.slice s i (i + 2)) <=? 25)) eqn:Hrange;
    [| repeat split; simpl; lia].
  apply andb_true_iff in Hrange as [H0 H25]. apply Z.leb_le in H0, H25.
  repeat split; try (simpl; lia).
  apply is_upper_text_cons. split; [lia | reflexivity].
Qed.

Lemma group_letters_bound (s : Py.str) (n : nat) :
  is_upper_text
    (flat_map (fun k => group_letter s (2 * k)) (seq 0 n)) = true
  /\ (length (flat_map (fun k => group_letter s (2 * k)) (seq 0 n)) <= n)%nat
  /\ (2 * length (flat_map (fun k => group_letter s (2 * k)) (seq 0 n))
      <= length s)%nat.
Proof.
  induction n as [| n (IHup & IHn & IHlen)]; [repeat split; simpl; lia |].
  rewrite seq_S, flat_map_app. cbn [flat_map Nat.add]. rewrite app_nil_r.
  destruct (group_letter_shape s (2 * n)) as (Hup & Hone & Hout).
  rewrite length_app. repeat split.
  - unfold is_upper_text in *. rewrite forallb_app, IHup, Hup. reflexivity.
  - lia.
  - destruct (Nat.le_gt_cases (length s) (2 * n + 1)) as [Hend | Hin].
    + rewrite (Hout Hend). cbn [length]. lia.
    + lia.
Qed.

(** On every digit string the decoder returns only upper-case letters
    A to Z, at most one for two digits. *)
Theorem map_numbers_to_text_output (s : Py.str) :
  is_digit_string s = true ->
  exists text,
    RSA.map_numbers_to_text s = Ok text
    /\ is_upper_text text = true
    /\ (2 * length text <= length s)%nat.
Proof.
  intros Hs. rewrite (map_numbers_to_text_spec s Hs).
  unfold Py.range_step2. rewrite flat_map_map.
  eexists. split; [reflexivity |].
  destruct (group_letters_bound s (Nat.div2 (length s + 1))) as (H1 & _ & H3).
  split; assumption.
Qed.

Lemma map_numbers_to_text_output_witness :
  exists text,
    RSA.map_numbers_to_text (py "079904") = Ok text
    /\ is_upper_text text = true
    /\ (2 * length text <= length (py "079904"))%nat.
Proof. apply (map_numbers_to_text_output (py "079904")). reflexivity. Defined.

Lemma flat_map_ext_on {A B : Type} (f g : A -> list B) (l : list A) :
  (forall a, In a l -> f a = g a) -> flat_map f l = flat_map g l.
Proof.
  induction l as [| a l IH]; intros H; [reflexivity |].
  cbn [flat_map]. rewrite (H a (or_introl eq_refl)), IH; [reflexivity |].
  intros a' Hin. apply H. right. exact Hin.
Qed.

Lemma group_letter_app (s : Py.str) (c : Z) (i : nat) :
  (i + 2 <= length s)%nat -> group_letter (s ++ [c]) i = group_letter s i.
Proof.
  intros Hi. unfold group_letter, Py.slice. rewrite length_app. cbn [length].
  destruct (Nat.ltb_spec (i + 1) (length s + 1)),
    (Nat.ltb_spec (i + 1) (length s)); try lia.
  rewrite skipn_app.
  replace (i - length s)%nat with 0%nat by lia. cbn [skipn].
  rewrite firstn_app, length_skipn.
  replace (i + 2 - i - (length s - i))%nat with 0%nat by lia.
  cbn [firstn]. rewrite app_nil_r. reflexivity.
Qed.

(** A single digit left after the last whole group is dropped: on a
    digit string of even length followed by one more digit the decoder
    returns what it returns on the string alone. *)
Theorem map_numbers_to_text_lone_digit (s : Py.str) (c : Z) :
  is_digit_string s = true -> Nat.even (length s) = true ->
  Py.is_digit c = true ->
  RSA.map_numbers_to_text (s ++ [c]) = RSA.map_numbers_to_text s.
Proof.
  intros Hs Heven Hc.
  assert (Hsc : is_digit_string (s ++ [c]) = true).
  { apply is_digit_string_app. split; [exact Hs |].
    apply is_digit_string_cons. split; [exact Hc | reflexivity]. }
  rewrite (map_numbers_to_text_spec _ Hs), (map_numbers_to_text_spec _ Hsc).
  f_equal. unfold Py.range_step2. rewrite !flat_map_map.
  apply Nat.even_spec in Heven as [n Hn].
  rewrite length_app, Hn. cbn [length].
  replace (2 * n + 1 + 1)%nat with (2 * S n)%nat by lia.
  rewrite Nat.div2_double, Nat.add_1_r, Nat.div2_succ_double.
  rewrite seq_S, flat_map_app. cbn [flat_map Nat.add]. rewrite app_nil_r.
  destruct (group_letter_shape (s ++ [c]) (2 * n)) as (_ & _ & Hout).
  rewrite Hout by (rewrite length_app; simpl; lia).
  rewrite app_nil_r. apply flat_map_ext_on.
  intros k Hk. apply in_seq in Hk. apply group_letter_app. lia.
Qed.

Lemma map_numbers_to_text_lone_digit_witness :
  RSA.map_numbers_to_text (py "0704" ++ [57]) = RSA.map_numbers_to_text (py "0704").
Proof.
  apply (map_numbers_to_text_lone_digit (py "0704") 57); reflexivity.
Defined.

(** ** ASCII texts *)

Lemma is_ascii_cons (c : Z) (text : Py.str) :
  is_ascii (c :: text) = true <-> 0 <= c < 128 /\ is_ascii text = true.
Proof.
  unfold is_ascii. cbn [forallb].
  rewrite !andb_true_iff, Z.leb_le, Z.ltb_lt. tauto.
Qed.

(** An ASCII letter has a one-character upper case in A to Z; another
    ASCII character is not a letter, is its own upper case and is not in
    A to Z. *)
Lemma ascii_char_cases (c : Z) :
  0 <= c < 128 ->
  (Tables.isalpha c = true
   /\ exists u, Tables.upper c = [u] /\ 65 <= u <= 90)
  \/ (Tables.isalpha c = false /\ Tables.upper c = [c]
      /\ (65 <=? c) && (c <=? 90) = false).
Proof.
  intros Hc. unfold Tables.isalpha, Tables.upper.
  destruct (Z.leb_spec 65 c), (Z.leb_spec c 90), (Z.leb_spec 97 c),
    (Z.leb_spec c 122), (Z.eqb_spec c 223); try lia; cbn [andb orb];
    solve [ left; split; [reflexivity | eexists; split; [reflexivity | lia]]
          | right; repeat split; reflexivity ].
Qed.

Lemma map_text_to_numbers_loop_ascii (text : Py.str) :
  forall numeric_str,
    is_ascii text = true ->
    RSA.map_text_to_numbers_loop Tables.isalpha Tables.upper text numeric_str
    = Ok (numeric_str
          ++ encoding (az_letters (TestRsa.str_upper Tables.upper text))).
Proof.
  induction text as [| c text IH]; intros numeric_str Ht.
  - simpl. rewrite app_nil_r. reflexivity.
  - apply is_ascii_cons in Ht as [Hc Ht].
    cbn [RSA.map_text_to_numbers_loop]. unfold TestRsa.str_upper.
    cbn [flat_map]. fold (TestRsa.str_upper Tables.upper text).
    destruct (ascii_char_cases c Hc)
      as [(Halpha & u & Hu & Hrange) | (Halpha & Hu & Hout)];
      rewrite Halpha, Hu; cbn [negb app az_letters filter].
    + rewrite (str_le_letter u Hrange). cbn [Py.ord bind].
      rewrite format_02d_letter by lia.
      destruct (Z.leb_spec 65 u), (Z.leb_spec u 90); try lia. cbn [andb].
      fold (az_letters (TestRsa.str_upper Tables.upper text)).
      rewrite (IH _ Ht), <- app_assoc. reflexivity.
    + rewrite Hout. fold (az_letters (TestRsa.str_upper Tables.upper text)).
      apply (IH _ Ht).
Qed.

(** On every ASCII text the encoder of [RSA.py] and the encoder of
    [test_rsa.py] return the same digit string: they differ only on
    letters outside ASCII. *)
Theorem encoders_agree_on_ascii (text : Py.str) :
  is_ascii text = true ->
  RSA.map_text_to_numbers Tables.isalpha Tables.upper text
  = TestRsa.text_to_numbers Tables.upper text.
Proof.
  intros Ht. rewrite text_to_numbers_any.
  apply (map_text_to_numbers_loop_ascii text [] Ht).
Qed.

Lemma encoders_agree_on_ascii_witness :
  RSA.map_text_to_numbers Tables.isalpha Tables.upper (py "Hello, World!")
  = TestRsa.text_to_numbers Tables.upper (py "Hello, World!").
Proof. apply (encoders_agree_on_ascii (py "Hello, World!")). reflexivity. Defined.

Lemma str_eqb_eq (a : Py.str) : forall b, Py.str_eqb a b = true <-> a = b.
Proof.
  induction a as [| x a IH]; intros [| y b]; cbn [Py.str_eqb];
    try (split; [discriminate | discriminate]); [tauto |].
  rewrite andb_true_iff, Z.eqb_eq, IH. split.
  - intros [-> ->]. reflexivity.
  - intros H. injection H as -> ->. tauto.
Qed.

Lemma cleaned_ascii (text : Py.str) :
  is_ascii text = true ->
  flat_map Tables.upper (filter Tables.isalpha text)
  = az_letters (TestRsa.str_upper Tables.upper text).
Proof.
  unfold TestRsa.str_upper.
  induction text as [| c text IH]; intros Ht; [reflexivity |].
  apply is_ascii_cons in Ht as [Hc Ht]. cbn [filter flat_map].
  destruct (ascii_char_cases c Hc)
    as [(Halpha & u & Hu & Hrange) | (Halpha & Hu & Hout)];
    rewrite Halpha, ?Hu; cbn [flat_map app az_letters filter].
  - rewrite Hu. destruct (Z.leb_spec 65 u), (Z.leb_spec u 90); try lia.
    cbn [andb app]. f_equal. apply (IH Ht).
  - rewrite Hout. apply (IH Ht).
Qed.

(** On every ASCII text [clean_text] returns the characters A to Z of
    the upper-cased text, and reports a change exactly when the text has
    a character other than the upper-case letters A to Z. *)
Theorem clean_text_ascii (text : Py.str) :
  is_ascii text = true ->
  RSA.clean_text Tables.isalpha Tables.upper text
  = (az_letters (TestRsa.str_upper Tables.upper text),
     negb (is_upper_text text)).
Proof.
  intros Ht. unfold RSA.clean_text. rewrite (cleaned_ascii text Ht).
  assert (Hflag : Py.str_eqb text
                    (az_letters (TestRsa.str_upper Tables.upper text))
                  = is_upper_text text).
  { destruct (is_upper_text text) eqn:Hup.
    - rewrite (str_upper_fixed Tables.upper text tables_upper_fixed Hup).
      rewrite (az_letters_fixed text Hup). apply str_eqb_eq. reflexivity.
    - destruct (Py.str_eqb text
                  (az_letters (TestRsa.str_upper Tables.upper text)))
        eqn:Heq; [| reflexivity].
      apply str_eqb_eq in Heq.
      pose proof (az_letters_upper (TestRsa.str_upper Tables.upper text)) as H.
      rewrite <- Heq, Hup in H. discriminate. }
  rewrite Hflag. reflexivity.
Qed.

Lemma clean_text_ascii_witness :
  RSA.clean_text Tables.isalpha Tables.upper (py "Hello, World!")
  = (az_letters (TestRsa.str_upper Tables.upper (py "Hello, World!")),
     negb (is_upper_text (py "Hello, World!"))).
Proof. apply (clean_text_ascii (py "Hello, World!")). reflexivity. Defined.

(** ** The pipelines on every text *)

Lemma pack_encoding (letters : Py.str) (n : Z) (fuel : nat) :
  is_upper_text letters = true -> 25 < n ->
  2 * Z.of_nat (length letters) <= Py.max_str_digits ->
  (2 * length letters <= fuel)%nat ->
  exists blocks,
    RSA.split_loop fuel (encoding letters) n [] 0 = Ok blocks
    /\ RSA.reconstruct_numeric_string blocks = Ok (encoding letters)
    /\ Forall (fun b => 0 <= fst b < n) blocks
    /\ Forall (fun b => 1 <= snd b <= Z.of_nat (length letters)) blocks.
Proof.
  intros Hup Hn Hcap Hfuel.
  destruct (encoding_well_formed letters Hup) as (Hdig & Hlen & Hgroups).
  assert (Heven : Nat.even (length (encoding letters)) = true)
    by (rewrite Hlen, Nat.even_mul; reflexivity).
  apply (groups_below_mono 26 n ltac:(lia)) in Hgroups.
  destruct (split_loop_good (encoding letters) n fuel [] 0%nat
              Hdig Heven Hgroups ltac:(lia) eq_refl ltac:(lia) ltac:(lia))
    as (blocks & Hpack & Hunpack & _).
  rewrite skipn_O in Hunpack. cbn [app] in Hpack.
  pose proof (split_loop_blocks_ok (encoding letters) n fuel [] 0%nat blocks
                Hdig eq_refl (Forall_nil _) Hpack) as Hok.
  exists blocks. repeat split; try assumption.
  - apply (block_ok_range _ _ _ Hok).
  - clear - Hok Hlen. induction Hok as [| [v c] blocks Hb _ IH];
      constructor; [| exact IH].
    destruct Hb as ((k & Hk & _) & _ & Hc & _). cbn [snd]. lia.
Qed.

Lemma encrypt_loop_any (e n : Z) (blocks : list TestRsa.block) :
  n <> 0 ->
  TestRsa.encrypt_loop blocks e n
  = Ok (map (fun b => ((if e <=? 0 then 1 else fst b ^ e mod n), snd b)) blocks).
Proof.
  intros Hn. induction blocks as [| [M c] blocks IH]; [reflexivity |].
  cbn [TestRsa.encrypt_loop map fst snd].
  destruct (Z.leb_spec e 0) as [Hle | Hpos].
  - rewrite test_mod_pow_nonpos by assumption. cbn [bind].
    rewrite IH. destruct (Z.leb_spec e 0); [reflexivity | lia].
  - unfold TestRsa.modular_exponentiation, Py.mod_.
    destruct (Z.eqb_spec n 0); [contradiction |]. cbn [bind].
    rewrite test_square_and_multiply_spec_nz
      by first [assumption | split; [lia | apply bits_bound; lia]].
    cbn [bind]. rewrite IH.
    destruct (Z.leb_spec e 0); [lia |].
    rewrite Z.mul_1_l, Z.mod_pow_l. reflexivity.
Qed.

(** With a modulus above 25 [encrypt_message] returns on every text
    whose upper-cased form has at most 2150 letters A to Z (an encoding of
    at most 4300 digits, the limit of [int]), and for every exponent,
    positive or not: every cipher value lies in [[0, n)] and every block
    stands for at least one letter. *)
Theorem encrypt_message_returns
    (upper : Z -> Py.str) (fuel : nat) (text : Py.str) (e n : Z) :
  25 < n ->
  2 * Z.of_nat (length (az_letters (TestRsa.str_upper upper text)))
  <= Py.max_str_digits ->
  (2 * length (az_letters (TestRsa.str_upper upper text)) <= fuel)%nat ->
  exists enc,
    TestRsa.encrypt_message upper fuel text e n = Ok enc
    /\ Forall (fun b => 0 <= fst b < n /\ 1 <= snd b) enc.
Proof.
  intros Hn Hcap Hfuel.
  pose proof (az_letters_upper (TestRsa.str_upper upper text)) as Hup.
  destruct (pack_encoding _ n fuel Hup Hn Hcap Hfuel)
    as (blocks & Hpack & _ & _ & Hcount).
  unfold TestRsa.encrypt_message.
  rewrite text_to_numbers_any. cbn [bind].
  unfold TestRsa.split_into_blocks. rewrite Hpack. cbn [bind].
  rewrite encrypt_loop_any by lia.
  eexists. split; [reflexivity |].
  clear - Hcount Hn. induction Hcount as [| [v c] blocks Hc _ IH];
    constructor; [| exact IH].
  cbn [fst snd] in *. split; [| apply Hc].
  destruct (Z.leb_spec e 0); [lia | apply Z.mod_pos_bound; lia].
Qed.

Lemma encrypt_message_returns_witness :
  exists enc,
    TestRsa.encrypt_message Tables.upper 30 (py "Attack at dawn") (-3) 3233
    = Ok enc
    /\ Forall (fun b => 0 <= fst b < 3233 /\ 1 <= snd b) enc.
Proof.
  apply (encrypt_message_returns Tables.upper 30 (py "Attack at dawn") (-3) 3233).
  - lia.
  - vm_compute. discriminate.
  - vm_compute. lia.
Defined.

Lemma roundtrip_any_text
    (upper : Z -> Py.str) (p q e : Z) (text : Py.str) (fuel : nat) :
  Z.prime p -> Z.prime q -> p <> q -> 25 < p * q ->
  1 <= e -> Z.gcd e ((p - 1) * (q - 1)) = 1 ->
  2 * Z.of_nat (length (az_letters (TestRsa.str_upper upper text)))
  <= Py.max_str_digits ->
  (2 * length (az_letters (TestRsa.str_upper upper text)) <= fuel)%nat ->
  exists d enc,
    TestRsa.modular_inverse e ((p - 1) * (q - 1)) = Ok d
    /\ TestRsa.encrypt_message upper fuel text e (p * q) = Ok enc
    /\ TestRsa.decrypt_message enc d (p * q)
       = Ok (az_letters (TestRsa.str_upper upper text)).
Proof.
  intros Hp Hq Hne Hn He Hg Hcap Hfuel.
  pose proof (totient_ge_2 p q Hp Hq Hne) as Hphi.
  destruct (test_modular_inverse_coprime e _ Hphi Hg) as (d & Hd & Hdr & Hinv).
  pose proof (az_letters_upper (TestRsa.str_upper upper text)) as Hup.
  destruct (pack_encoding _ (p * q) fuel Hup Hn Hcap Hfuel)
    as (blocks & Hpack & Hunpack & Hrange & _).
  exists d, (map (encrypt_block e (p * q)) blocks).
  split; [exact Hd |]. split.
  - unfold TestRsa.encrypt_message.
    rewrite text_to_numbers_any. cbn [bind].
    unfold TestRsa.split_into_blocks. rewrite Hpack. cbn [bind].
    apply encrypt_loop_spec; lia.
  - unfold TestRsa.decrypt_message.
    rewrite (decrypt_loop_encrypted p q e d blocks Hp Hq Hne He
               ltac:(lia) Hinv Hrange _ [] Hunpack).
    cbn [bind app].
    apply (map_numbers_to_text_encoding _ Hup).
Qed.

(** For valid keys the round trip through [encrypt_message] and
    [decrypt_message] returns, on every text whose upper-cased form has at
    most 2150 letters A to Z (an encoding of at most 4300 digits, the
    limit of [int]), the characters A to Z of the upper-cased text: the
    text itself when it has only those. *)
Theorem rsa_roundtrip_any_text
    (upper : Z -> Py.str) (p q e : Z) (text : Py.str) (fuel : nat) :
  Z.prime p -> Z.prime q -> p <> q -> 25 < p * q ->
  1 <= e -> Z.gcd e ((p - 1) * (q - 1)) = 1 ->
  2 * Z.of_nat (length (az_letters (TestRsa.str_upper upper text)))
  <= Py.max_str_digits ->
  (2 * length (az_letters (TestRsa.str_upper upper text)) <= fuel)%nat ->
  exists d enc,
    TestRsa.modular_inverse e ((p - 1) * (q - 1)) = Ok d
    /\ TestRsa.encrypt_message upper fuel text e (p * q) = Ok enc
    /\ TestRsa.decrypt_message enc d (p * q)
       = Ok (az_letters (TestRsa.str_upper upper text)).
Proof. exact (roundtrip_any_text upper p q e text fuel). Qed.

Lemma rsa_roundtrip_any_text_witness :
  exists d enc,
    TestRsa.modular_inverse 7 ((103 - 1) * (107 - 1)) = Ok d
    /\ TestRsa.encrypt_message Tables.upper 30 (py "Attack at dawn!") 7
         (103 * 107) = Ok enc
    /\ TestRsa.decrypt_message enc d (103 * 107)
       = Ok (az_letters (TestRsa.str_upper Tables.upper (py "Attack at dawn!"))).
Proof.
  apply (rsa_roundtrip_any_text Tables.upper 103 107 7 (py "Attack at dawn!") 30).
  - apply is_prime_sound. reflexivity.
  - apply is_prime_sound. reflexivity.
  - lia.
  - lia.
  - lia.
  - reflexivity.
  - vm_compute. discriminate.
  - vm_compute. lia.
Defined.

Lemma map_text_to_numbers_loop_upper
    (isalpha : Z -> bool) (upper : Z -> Py.str) (text : Py.str) :
  (forall c, 65 <= c <= 90 -> isalpha c = true /\ upper c = [c]) ->
  forall numeric_str,
    is_upper_text text = true ->
    RSA.map_text_to_numbers_loop isalpha upper text numeric_str
    = Ok (numeric_str ++ encoding text).
Proof.
  intros Htables. induction text as [| c text IH]; intros numeric_str Ht.
  - simpl. rewrite app_nil_r. reflexivity.
  - apply is_upper_text_cons in Ht as [Hc Ht].
    destruct (Htables c Hc) as [Halpha Hupper].
    cbn [RSA.map_text_to_numbers_loop]. rewrite Halpha, Hupper.
    cbn [negb]. rewrite (str_le_letter c Hc).
    cbn [Py.ord bind]. rewrite format_02d_letter by lia.
    rewrite (IH _ Ht), <- app_assoc. reflexivity.
Qed.

Lemma encrypt_blocks_spec (e n : Z) (blocks : list RSA.block) :
  0 < n -> 0 < e ->
  RSA.encrypt_blocks blocks e n = Ok (map (encrypt_block e n) blocks).
Proof.
  intros Hn He. induction blocks as [| [M c] blocks IH]; [reflexivity |].
  cbn [RSA.encrypt_blocks]. rewrite rsa_mod_pow_pos by lia.
  cbn [bind]. rewrite IH. reflexivity.
Qed.

Lemma decrypt_blocks_encrypted (p q e d : Z) (blocks : list RSA.block) :
  Z.prime p -> Z.prime q -> p <> q ->
  1 <= e -> 0 < d -> (e * d) mod ((p - 1) * (q - 1)) = 1 ->
  Forall (fun b => 0 <= fst b < p * q) blocks ->
  RSA.decrypt_blocks (map (encrypt_block e (p * q)) blocks) d (p * q)
  = Ok blocks.
Proof.
  intros Hp Hq Hne He Hd Hinv Hall.
  pose proof (totient_ge_2 p q Hp Hq Hne) as Hphi.
  induction Hall as [| [M c] blocks HM _ IH]; [reflexivity |].
  cbn [map RSA.decrypt_blocks encrypt_block fst snd] in *.
  rewrite rsa_mod_pow_pos by lia. cbn [bind]. rewrite IH. cbn [bind].
  rewrite Z.mod_pow_l, <- Z.pow_mul_r by lia.
  rewrite (rsa_identity p q e d M) by (assumption || nia). reflexivity.
Qed.

(** The steps of [demo_rsa] on any valid key and any text of at most 2150
    upper-case letters (an encoding of at most 4300 digits, the limit of
    [int]): the text is encoded, packed and encrypted, [modinv] returns
    a [d] with [(e * d) mod phi = 1], decryption gives the plain blocks
    back, they rebuild the numeric string, and decoding returns the text.
    The three assertions of [demo_rsa] hold. [isalpha] and [upper] stand
    for the string methods, which take the letters A to Z as letters and
    leave them as they are. *)
Theorem rsa_py_pipeline
    (isalpha : Z -> bool) (upper : Z -> Py.str)
    (p q e : Z) (text : Py.str) (fuel : nat) :
  (forall c, 65 <= c <= 90 -> isalpha c = true /\ upper c = [c]) ->
  Z.prime p -> Z.prime q -> p <> q -> 25 < p * q ->
  1 <= e -> Z.gcd e ((p - 1) * (q - 1)) = 1 ->
  is_upper_text text = true ->
  2 * Z.of_nat (length text) <= Py.max_str_digits ->
  (2 * length text <= fuel)%nat ->
  exists numeric blocks encrypted d,
    RSA.map_text_to_numbers isalpha upper text = Ok numeric
    /\ RSA.split_into_blocks fuel numeric (p * q) = Ok blocks
    /\ RSA.encrypt_blocks blocks e (p * q) = Ok encrypted
    /\ RSA.modinv e ((p - 1) * (q - 1)) = Ok d
    /\ (e * d) mod ((p - 1) * (q - 1)) = 1
    /\ RSA.decrypt_blocks encrypted d (p * q) = Ok blocks
    /\ RSA.reconstruct_numeric_string blocks = Ok numeric
    /\ RSA.map_numbers_to_text numeric = Ok text.
Proof.
  intros Htables Hp Hq Hne Hn He Hg Ht Hcap Hfuel.
  pose proof (totient_ge_2 p q Hp Hq Hne) as Hphi.
  destruct (rsa_modinv_coprime e _ Hphi Hg) as (d & Hd & Hdr & Hinv).
  assert (Hdpos : 0 < d).
  { destruct (Z.eq_dec d 0) as [-> | Hnz]; [| lia].
    rewrite Z.mul_0_r, Z.mod_0_l in Hinv by lia. discriminate. }
  destruct (pack_encoding text (p * q) fuel Ht Hn Hcap Hfuel)
    as (blocks & Hpack & Hunpack & Hrange & _).
  exists (encoding text), blocks, (map (encrypt_block e (p * q)) blocks), d.
  repeat split; try assumption.
  - apply (map_text_to_numbers_loop_upper isalpha upper text Htables [] Ht).
  - apply encrypt_blocks_spec; lia.
  - apply (decrypt_blocks_encrypted p q e d blocks); assumption.
  - apply (map_numbers_to_text_encoding text Ht).
Qed.

Lemma tables_letters (c : Z) :
  65 <= c <= 90 -> Tables.isalpha c = true /\ Tables.upper c = [c].
Proof.
  intros Hc. split; [| apply tables_upper_fixed, Hc].
  unfold Tables.isalpha.
  destruct (Z.leb_spec 65 c), (Z.leb_spec c 90); solve [lia | reflexivity].
Qed.

Lemma rsa_py_pipeline_witness :
  exists numeric blocks encrypted d,
    RSA.map_text_to_numbers Tables.isalpha Tables.upper (py "HELLO") = Ok numeric
    /\ RSA.split_into_blocks 10 numeric (61 * 53) = Ok blocks
    /\ RSA.encrypt_blocks blocks 17 (61 * 53) = Ok encrypted
    /\ RSA.modinv 17 ((61 - 1) * (53 - 1)) = Ok d
    /\ (17 * d) mod ((61 - 1) * (53 - 1)) = 1
    /\ RSA.decrypt_blocks encrypted d (61 * 53) = Ok blocks
    /\ RSA.reconstruct_numeric_string blocks = Ok numeric
    /\ RSA.map_numbers_to_text numeric = Ok (py "HELLO").
Proof.
  apply (rsa_py_pipeline Tables.isalpha Tables.upper 61 53 17 (py "HELLO") 10).
  - exact tables_letters.
  - apply is_prime_sound. reflexivity.
  - apply is_prime_sound. reflexivity.
  - lia.
  - lia.
  - lia.
  - reflexivity.
  - reflexivity.
  - vm_compute. discriminate.
  - vm_compute. lia.
Defined.

(** ** The test driver *)

Lemma normal_form_eqb (upper : Z -> Py.str) (text : Py.str) :
  (forall c, 65 <= c <= 90 -> upper c = [c]) ->
  Py.str_eqb text (az_letters (TestRsa.str_upper upper text))
  = is_upper_text text.
Proof.
  intros Hupper. destruct (is_upper_text text) eqn:Hup.
  - rewrite (str_upper_fixed upper text Hupper Hup).
    rewrite (az_letters_fixed text Hup). apply str_eqb_eq. reflexivity.
  - destruct (Py.str_eqb text (az_letters (TestRsa.str_upper upper text)))
      eqn:Heq; [| reflexivity].
    apply str_eqb_eq in Heq.
    pose proof (az_letters_upper (TestRsa.str_upper upper text)) as H.
    rewrite <- Heq, Hup in H. discriminate.
Qed.

(** A number of at most 4300 digits is printed without an error. *)
Lemma to_str_below (v : Z) :
  0 <= v < 10 ^ Py.max_str_digits -> Py.to_str v = Ok (Py.str_of_int v).
Proof.
  intros Hv. apply to_str_digits; [lia |].
  destruct (str_of_int_spec v) as (ds & -> & _ & _ & _ & Hlen); [lia |].
  specialize (Hlen (Z.to_nat Py.max_str_digits)).
  rewrite Z2Nat.id in Hlen by (unfold Py.max_str_digits; lia).
  assert (Hk : (length ds <= Z.to_nat Py.max_str_digits)%nat).
  { apply Hlen; [unfold Py.max_str_digits; lia | apply Hv]. }
  unfold Py.max_str_digits in Hk |- *. lia.
Qed.

Lemma print_ints_below (values : list Z) :
  Forall (fun v => 0 <= v < 10 ^ Py.max_str_digits) values ->
  TestRsa.print_ints values = Ok tt.
Proof.
  intros Hall. induction Hall as [| v values Hv _ IH]; [reflexivity |].
  cbn [TestRsa.print_ints]. rewrite (to_str_below v Hv). cbn [bind]. exact IH.
Qed.

Lemma limit_below_power : Py.max_str_digits < 10 ^ Py.max_str_digits.
Proof. apply Z.pow_gt_lin_r; unfold Py.max_str_digits; lia. Qed.

(** On valid keys of at most 4300 digits [test_case] returns [True]
    exactly for the messages made of upper-case letters A to Z, and
    [False] for every other message: the decrypted text is the upper-cased
    message without its other characters. The message has at most 2150
    letters A to Z once upper-cased, an encoding of at most 4300 digits. *)
Theorem test_case_verdict
    (upper : Z -> Py.str) (fuel : nat) (p q e : Z) (mensaje : Py.str) :
  (forall c, 65 <= c <= 90 -> upper c = [c]) ->
  Z.prime p -> Z.prime q -> p <> q -> 25 < p * q ->
  1 <= e -> Z.gcd e ((p - 1) * (q - 1)) = 1 ->
  p * q < 10 ^ Py.max_str_digits -> e < 10 ^ Py.max_str_digits ->
  2 * Z.of_nat (length (az_letters (TestRsa.str_upper upper mensaje)))
  <= Py.max_str_digits ->
  (2 * length (az_letters (TestRsa.str_upper upper mensaje)) <= fuel)%nat ->
  TestRsa.test_case upper fuel p q e mensaje = Ok (is_upper_text mensaje).
Proof.
  intros Hupper Hp Hq Hne Hn He Hg Hnb Heb Hcap Hfuel.
  pose proof (totient_ge_2 p q Hp Hq Hne) as Hphi.
  pose proof (Z.prime_ge_2 p Hp) as Hp2.
  pose proof (Z.prime_ge_2 q Hq) as Hq2.
  pose proof limit_below_power as Hlim.
  destruct (test_modular_inverse_coprime e _ Hphi Hg) as (d & Hd & Hdr & Hinv).
  pose proof (az_letters_upper (TestRsa.str_upper upper mensaje)) as Hup.
  destruct (pack_encoding _ (p * q) fuel Hup Hn Hcap Hfuel)
    as (blocks & Hpack & Hunpack & Hrange & Hcount).
  assert (Henc : TestRsa.encrypt_message upper fuel mensaje e (p * q)
                 = Ok (map (encrypt_block e (p * q)) blocks)).
  { unfold TestRsa.encrypt_message.
    rewrite text_to_numbers_any. cbn [bind].
    unfold TestRsa.split_into_blocks. rewrite Hpack. cbn [bind].
    apply encrypt_loop_spec; lia. }
  assert (Hdec : TestRsa.decrypt_message
                   (map (encrypt_block e (p * q)) blocks) d (p * q)
                 = Ok (az_letters (TestRsa.str_upper upper mensaje))).
  { unfold TestRsa.decrypt_message.
    rewrite (decrypt_loop_encrypted p q e d blocks Hp Hq Hne He
               ltac:(lia) Hinv Hrange _ [] Hunpack).
    cbn [bind app]. apply (map_numbers_to_text_encoding _ Hup). }
  assert (Hkeys : TestRsa.print_ints [p; q; p * q; (p - 1) * (q - 1); e; d]
                  = Ok tt).
  { apply print_ints_below.
    set (limit := 10 ^ Py.max_str_digits) in *.
    repeat (constructor; [nia |]). constructor. }
  assert (Hplain : TestRsa.print_ints
                     (flat_map (fun b => [fst b; snd b]) blocks) = Ok tt).
  { apply print_ints_below.
    set (limit := 10 ^ Py.max_str_digits) in *.
    clear - Hrange Hcount Hnb Hcap Hlim.
    induction blocks as [| b blocks IH]; [constructor |].
    inversion Hrange as [| ? ? Hb Hrange']; subst.
    inversion Hcount as [| ? ? Hc Hcount']; subst.
    cbn [flat_map app].
    constructor; [lia |]. constructor; [lia |]. apply IH; assumption. }
  assert (Hcipher : TestRsa.print_ints
                      (map fst (map (encrypt_block e (p * q)) blocks))
                    = Ok tt).
  { apply print_ints_below.
    set (limit := 10 ^ Py.max_str_digits) in *.
    clear - Hn Hnb.
    induction blocks as [| b blocks IH]; [constructor |].
    cbn [map encrypt_block fst]. constructor; [| exact IH].
    pose proof (Z.mod_pos_bound (fst b ^ e) (p * q) ltac:(lia)). lia. }
  unfold TestRsa.test_case. rewrite Hd, Hkeys. cbn [bind]. unfold Py.mod_.
  destruct (Z.eqb_spec ((p - 1) * (q - 1)) 0); [lia |]. cbn [bind].
  rewrite Hinv.
  change (TestRsa.print_ints [1]) with (Ok tt).
  cbn [bind Z.eqb Pos.eqb negb].
  rewrite text_to_numbers_any. cbn [bind].
  unfold TestRsa.split_into_blocks. rewrite Hpack. cbn [bind].
  rewrite Hplain. cbn [bind].
  rewrite Henc. cbn [bind]. rewrite Hcipher. cbn [bind].
  rewrite Hdec. cbn [bind].
  rewrite (normal_form_eqb upper mensaje Hupper). reflexivity.
Qed.

Lemma test_case_verdict_witness :
  TestRsa.test_case Tables.upper 40 97 89 5 (py "CRYPTO")
  = Ok (is_upper_text (py "CRYPTO"))
  /\ TestRsa.test_case Tables.upper 40 97 89 5 (py "Crypto")
     = Ok (is_upper_text (py "Crypto")).
Proof.
  split.
  - apply (test_case_verdict Tables.upper 40 97 89 5 (py "CRYPTO")).
    + exact tables_upper_fixed.
    + apply is_prime_sound. reflexivity.
    + apply is_prime_sound. reflexivity.
    + lia.
    + lia.
    + lia.
    + reflexivity.
    + reflexivity.
    + reflexivity.
    + vm_compute. discriminate.
    + vm_compute. lia.
  - apply (test_case_verdict Tables.upper 40 97 89 5 (py "Crypto")).
    + exact tables_upper_fixed.
    + apply is_prime_sound. reflexivity.
    + apply is_prime_sound. reflexivity.
    + lia.
    + lia.
    + lia.
    + reflexivity.
    + reflexivity.
    + reflexivity.
    + vm_compute. discriminate.
    + vm_compute. lia.
Defined.

(** When the exponent is not coprime to [phi = (p - 1)(q - 1)],
    [test_case] catches the [ValueError] of [modular_inverse] and returns
    [False], whatever the numbers and the message are. *)
Theorem test_case_not_coprime
    (upper : Z -> Py.str) (fuel : nat) (p q e : Z) (mensaje : Py.str) :
  Z.gcd e ((p - 1) * (q - 1)) <> 1 ->
  TestRsa.test_case upper fuel p q e mensaje = Ok false.
Proof.
  intros Hg. unfold TestRsa.test_case.
  rewrite (test_modular_inverse_not_coprime e _ Hg). reflexivity.
Qed.

Lemma test_case_not_coprime_witness :
  TestRsa.test_case Tables.upper 10 61 53 15 (py "HELLO") = Ok false.
Proof.
  apply (test_case_not_coprime Tables.upper 10 61 53 15 (py "HELLO")).
  discriminate.
Defined.

(** ** The packer is greedy *)

Lemma split_loop_greedy (s : Py.str) (m : Z) (fuel : nat) :
  forall blocks i,
    is_digit_string s = true -> Nat.even (length s) = true ->
    groups_below m s = true ->
    Z.of_nat (length s) <= Py.max_str_digits ->
    Nat.even i = true -> (i <= length s)%nat -> (length s - i <= fuel)%nat ->
    exists bs,
      RSA.split_loop fuel s m blocks i = Ok (blocks ++ bs)
      /\ consumed bs = (length s - i)%nat
      /\ ((length s <= i)%nat -> bs = [])
      /\ forall front b rest,
           bs = front ++ b :: rest -> rest <> [] ->
           let start := (i + consumed front)%nat in
           let stop := (start + 2 * Z.to_nat (snd b))%nat in
           (stop + 2 <= length s)%nat
           /\ fst b = Py.int_digits (Py.slice s start stop)
           /\ m <= Py.int_digits (Py.slice s start (stop + 2)).
Proof.
  induction fuel as [| fuel IH];
    intros blocks i Hs Hlen Hgroups Hcap Hi Hile Hfuel;
    cbn [RSA.split_loop];
    destruct (Nat.ltb_spec i (length s)) as [Hlt | Hge];
    try lia;
    try (exists []; rewrite app_nil_r;
         split; [reflexivity |]; split; [simpl; lia |];
         split; [reflexivity |];
         intros [| ? ?] ? ? Habs; discriminate Habs).
  pose proof (even_lt_succ_lt i (length s) Hi Hlen Hlt) as Hlt1.
  pose proof (groups_below_at m s i Hgroups Hi Hlt1) as Hfirst.
  destruct (grow_block_spec s m (length s) [] 0 i Hs eq_refl)
    as (j & Heq & Hin & Hbelow & Hstop); [simpl; lia | lia |].
  rewrite Heq. cbn [bind app]. cbn [app] in Hbelow, Hstop.
  destruct j as [| j].
  { rewrite Nat.mul_0_r, Nat.add_0_r in Hstop. specialize (Hstop Hlt1). lia. }
  specialize (Hin ltac:(lia)).
  pose proof (slice_nonempty s i (i + 2 * S j) ltac:(lia)) as Hne.
  pose proof (is_digit_string_slice s i (i + 2 * S j) Hs) as Hd.
  assert (Hcapb : Z.of_nat (length (Py.slice s i (i + 2 * S j)))
                  <= Py.max_str_digits)
    by (rewrite slice_length by lia; lia).
  pose proof (int_digit_string _ Hne Hd Hcapb) as Hint.
  destruct (Py.slice s i (i + 2 * S j)) as [| c cb] eqn:Hcb; [contradiction |].
  rewrite Hint. cbn [bind].
  pose proof (even_add_groups i (S j) Hi) as Hi'.
  destruct (IH (blocks ++ [(Py.int_digits (c :: cb), 0 + Z.of_nat (S j))])
              (i + 2 * S j)%nat Hs Hlen Hgroups Hcap Hi')
    as (bs & Hrun & Hcons & Hnone & Hgreedy); [lia | lia |].
  exists ((Py.int_digits (c :: cb), 0 + Z.of_nat (S j)) :: bs).
  rewrite Hrun, <- app_assoc. split; [reflexivity |]. split.
  { cbn [consumed fold_right snd]. fold (consumed bs). rewrite Hcons. lia. }
  split; [lia |].
  intros front b rest Hsplit Hrest.
  destruct front as [| b0 front]; cbn [app] in Hsplit;
    injection Hsplit as Hb Hbs.
  - subst b rest. cbn [consumed fold_right fst snd].
    cbn [Z.to_nat]. rewrite SuccNat2Pos.id_succ, Nat.add_0_r.
    assert (Hmore : (i + 2 * S j < length s)%nat).
    { destruct (Nat.le_gt_cases (length s) (i + 2 * S j)) as [Hend | H];
        [| exact H].
      exfalso. apply Hrest, Hnone, Hend. }
    pose proof (even_lt_succ_lt _ _ Hi' Hlen Hmore) as Hmore1.
    split; [lia |]. split; [rewrite Hcb; reflexivity |].
    apply Hstop. exact Hmore1.
  - subst b0. specialize (Hgreedy front b rest Hbs Hrest).
    cbn [consumed fold_right fst snd].
    cbn [Z.to_nat]. rewrite SuccNat2Pos.id_succ.
    fold (consumed front).
    replace (i + (2 * S j + consumed front))%nat
      with (i + 2 * S j + consumed front)%nat by lia.
    exact Hgreedy.
Qed.

(** The packing is greedy. On a digit string of even length and of at
    most 4300 digits (the limit of [int]) whose groups are all below the
    modulus, every block but the last is the parse of the groups from
    where the blocks before it end, and it could not take the next group:
    the parse with one more group is at or above the modulus. *)
Theorem split_into_blocks_greedy
    (fuel : nat) (s : Py.str) (m : Z) :
  is_digit_string s = true -> Nat.even (length s) = true ->
  groups_below m s = true ->
  Z.of_nat (length s) <= Py.max_str_digits ->
  (length s <= fuel)%nat ->
  exists blocks,
    RSA.split_into_blocks fuel s m = Ok blocks
    /\ forall front b rest,
         blocks = front ++ b :: rest -> rest <> [] ->
         let start := consumed front in
         let stop := (start + 2 * Z.to_nat (snd b))%nat in
         (stop + 2 <= length s)%nat
         /\ fst b = Py.int_digits (Py.slice s start stop)
         /\ m <= Py.int_digits (Py.slice s start (stop + 2)).
Proof.
  intros Hs Hlen Hgroups Hcap Hfuel.
  destruct (split_loop_greedy s m fuel [] 0%nat Hs Hlen Hgroups Hcap eq_refl)
    as (bs & Hrun & _ & _ & Hgreedy); [lia | lia |].
  exists bs. split; [exact Hrun |]. exact Hgreedy.
Qed.

Lemma split_into_blocks_greedy_witness :
  exists blocks,
    RSA.split_into_blocks 10 (py "0704111114") 3233 = Ok blocks
    /\ forall front b rest,
         blocks = front ++ b :: rest -> rest <> [] ->
         let start := consumed front in
         let stop := (start + 2 * Z.to_nat (snd b))%nat in
         (stop + 2 <= length (py "0704111114"))%nat
         /\ fst b = Py.int_digits (Py.slice (py "0704111114") start stop)
         /\ 3233 <= Py.int_digits (Py.slice (py "0704111114") start (stop + 2)).
Proof.
  apply (split_into_blocks_greedy 10 (py "0704111114") 3233);
    [reflexivity | reflexivity | reflexivity
     | vm_compute; discriminate | vm_compute; lia].
Defined.

(** The letter counts add up. On a digit string of even length and of at
    most 4300 digits (the limit of [int]) whose groups are all below the
    modulus, the blocks stand for the whole input: twice the sum of their
    letter counts is its length, and every count is at least 1, so there
    are at most half as many blocks as digits. *)
Theorem split_into_blocks_letter_counts
    (fuel : nat) (s : Py.str) (m : Z) :
  is_digit_string s = true -> Nat.even (length s) = true ->
  groups_below m s = true ->
  Z.of_nat (length s) <= Py.max_str_digits ->
  (length s <= fuel)%nat ->
  exists blocks,
    RSA.split_into_blocks fuel s m = Ok blocks
    /\ consumed blocks = length s
    /\ (2 * length blocks <= length s)%nat.
Proof.
  intros Hs Hlen Hgroups Hcap Hfuel.
  destruct (split_loop_greedy s m fuel [] 0%nat Hs Hlen Hgroups Hcap eq_refl)
    as (bs & Hrun & Hcons & _); [lia | lia |].
  exists bs. split; [exact Hrun |].
  rewrite Nat.sub_0_r in Hcons. split; [exact Hcons |].
  pose proof (split_loop_blocks_ok s m fuel [] 0%nat bs Hs eq_refl
                (Forall_nil _) Hrun) as Hok.
  rewrite <- Hcons. clear - Hok.
  induction Hok as [| [v c] blocks Hb _ IH]; [simpl; lia |].
  destruct Hb as (_ & _ & Hc & _).
  cbn [consumed fold_right snd length]. fold (consumed blocks). lia.
Qed.

Lemma split_into_blocks_letter_counts_witness :
  exists blocks,
    RSA.split_into_blocks 10 (py "0704111114") 3233 = Ok blocks
    /\ consumed blocks = length (py "0704111114")
    /\ (2 * length blocks <= length (py "0704111114"))%nat.
Proof.
  apply (split_into_blocks_letter_counts 10 (py "0704111114") 3233);
    [reflexivity | reflexivity | reflexivity
     | vm_compute; discriminate | vm_compute; lia].
Defined.
